(** * password_security_checker: strength scoring and k-anonymity breach lookup

    A shallow embedding of [PasswordChecker] from
    [src/password_security_checker.py]:

    - [calculate_password_strength] (lines 27-90), the five scoring criteria
      and the strength label;
    - [check_pwned_api] (lines 92-109), the SHA-1 range query, with the
      HTTP transport as an explicit argument and Python exceptions as an
      explicit [Raise] outcome;
    - [generate_recommendations] (lines 111-128), [check_password] (lines
      130-171) and [main] (lines 174-218), with what is printed as an
      explicit list and what is typed as a list of input events.

    A Python [str] is a sequence of Unicode code points; it is modelled as
    [list Z].  [bytes] are [list Z] with entries in [0, 255]. *)

From Stdlib Require Import ZArith List Bool Lia String Ascii.
Import ListNotations.
Local Open Scope Z_scope.

(** ** Python strings *)

Definition codepoint := Z.
Definition str := list codepoint.

(** A string literal of the source, as code points (ASCII literals only). *)
Definition lit (s : string) : str :=
  map (fun a => Z.of_N (N_of_ascii a)) (list_ascii_of_string s).

Definition in_range (lo hi c : Z) : bool := (lo <=? c) && (c <=? hi).

Definition is_ascii (c : codepoint) : bool := in_range 0 127 c.

Fixpoint str_eqb (a b : str) : bool :=
  match a, b with
  | [], [] => true
  | x :: a', y :: b' => (x =? y) && str_eqb a' b'
  | _, _ => false
  end.

(** ** The interpreter's Unicode character data *)

(** First code points of the runs of ten decimal digits (general category
    Nd) of the Unicode character database, version 14.0, which CPython 3.11
    ships.  The mathematical digits U+1D7CE..U+1D7FF are five further runs
    and are handled in [to_decimal]. *)
Definition decimal_runs : list Z :=
  [ 0x0030; 0x0660; 0x06F0; 0x07C0; 0x0966; 0x09E6; 0x0A66; 0x0AE6;
    0x0B66; 0x0BE6; 0x0C66; 0x0CE6; 0x0D66; 0x0DE6; 0x0E50; 0x0ED0;
    0x0F20; 0x1040; 0x1090; 0x17E0; 0x1810; 0x1946; 0x19D0; 0x1A80;
    0x1A90; 0x1B50; 0x1BB0; 0x1C40; 0x1C50; 0xA620; 0xA8D0; 0xA900;
    0xA9D0; 0xA9F0; 0xAA50; 0xABF0; 0xFF10; 0x104A0; 0x10D30; 0x11066;
    0x110F0; 0x11136; 0x111D0; 0x112F0; 0x11450; 0x114D0; 0x11650;
    0x116C0; 0x11730; 0x118E0; 0x11950; 0x11C50; 0x11D50; 0x11DA0;
    0x16A60; 0x16AC0; 0x16B50; 0x1E140; 0x1E2F0; 0x1E950; 0x1FBF0 ].

(** [Py_UNICODE_TODECIMAL]: the digit value of a decimal digit character. *)
Definition to_decimal (c : codepoint) : option Z :=
  if in_range 0x1D7CE 0x1D7FF c then Some ((c - 0x1D7CE) mod 10)
  else match find (fun b => in_range b (b + 9) c) decimal_runs with
       | Some b => Some (c - b)
       | None => None
       end.

(** [Py_UNICODE_ISDECIMAL], which is what [\d] of a [str] pattern tests. *)
Definition is_decimal (c : codepoint) : bool :=
  match to_decimal c with Some _ => true | None => false end.

(** [Py_UNICODE_ISSPACE]. *)
Definition is_unicode_space (c : codepoint) : bool :=
  in_range 0x09 0x0D c || in_range 0x1C 0x20 c || (c =? 0x85) || (c =? 0xA0)
  || (c =? 0x1680) || in_range 0x2000 0x200A c || (c =? 0x2028)
  || (c =? 0x2029) || (c =? 0x202F) || (c =? 0x205F) || (c =? 0x3000).

Definition ascii_lower (c : codepoint) : codepoint :=
  if in_range 65 90 c then c + 32 else c.

Definition ascii_upper (c : codepoint) : codepoint :=
  if in_range 97 122 c then c - 32 else c.

(** ** Regular expressions of the source

    Every pattern of the source is a single character class, so
    [re.search(p, s)] is truthy exactly when some character of [s] is in
    the class. *)

Definition re_search (class : codepoint -> bool) (s : str) : bool :=
  existsb class s.

(** [\d] *)
Definition class_digit : codepoint -> bool := is_decimal.
(** [[a-z]] *)
Definition class_lower : codepoint -> bool := in_range 97 122.
(** [[A-Z]] *)
Definition class_upper : codepoint -> bool := in_range 65 90.
(** [[a-zA-Z]] *)
Definition class_letter (c : codepoint) : bool :=
  in_range 97 122 c || in_range 65 90 c.

(** The characters of the class at line 58: the thirteen characters up to
    the question mark, the double quote (code point 34), and the six from
    the colon on. *)
Definition special_characters : str :=
  lit "!@#$%^&*(),.?" ++ [34] ++ lit ":{}|<>".

Definition class_special (c : codepoint) : bool :=
  existsb (Z.eqb c) special_characters.

(** ** calculate_password_strength *)

(** The feedback messages, in the order of their first occurrence in the
    source (lines 35, 38, 40, 45, 47, 52, 55, 60, 62, 67). *)
Inductive finding : Type :=
  | LengthExcellent   (* "✓ Длина пароля отличная (12+ символов)" *)
  | LengthGood        (* "✓ Длина пароля хорошая (8+ символов)" *)
  | LengthTooShort    (* "✗ Слишком короткий пароль ..." *)
  | HasDigits         (* "✓ Содержит цифры" *)
  | NoDigits          (* "✗ Добавьте цифры ..." *)
  | MixedCase         (* "✓ Использует смешанный регистр" *)
  | SingleCase        (* "✗ Добавьте буквы в разных регистрах" *)
  | HasSpecial        (* "✓ Содержит специальные символы" *)
  | NoSpecial         (* "✗ Добавьте специальные символы ..." *)
  | InCommonList.     (* "✗ Пароль находится в списке самых слабых паролей!" *)

(** The leading mark of a message: [true] for ✓, [false] for ✗. *)
Definition passes (f : finding) : bool :=
  match f with
  | LengthExcellent | LengthGood | HasDigits | MixedCase | HasSpecial => true
  | LengthTooShort | NoDigits | SingleCase | NoSpecial | InCommonList => false
  end.

Inductive strength_label : Type :=
  | Excellent   (* "Отличный" *)
  | Good        (* "Хороший" *)
  | Medium      (* "Средний" *)
  | Weak.       (* "Слабый" *)

Inductive colour : Type :=
  | Green       (* "\033[92m" *)
  | Yellow      (* "\033[93m" *)
  | Orange      (* "\033[33m" *)
  | Red.        (* "\033[91m" *)

(** The dictionary returned at lines 83-90. *)
Record analysis : Type := mkAnalysis {
  score : Z;
  max_score : Z;
  strength : strength_label;
  color : colour;
  feedback : list finding;
  length : Z
}.

(** [load_common_passwords], lines 16-25. *)
Definition common_passwords : list str :=
  map lit
    [ "123456"; "password"; "12345678"; "qwerty"; "123456789";
      "12345"; "1234"; "111111"; "1234567"; "dragon";
      "123123"; "baseball"; "abc123"; "football"; "monkey";
      "letmein"; "shadow"; "master"; "666666"; "qwertyuiop";
      "123321"; "mustang"; "1234567890"; "michael"; "superman" ]%string.

(** [x in self.common_passwords] *)
Definition in_common_passwords (x : str) : bool :=
  existsb (str_eqb x) common_passwords.

Definition len (s : str) : Z := Z.of_nat (List.length s).

(** The pair [(score, feedback)] that the body of the function updates. *)
Definition tally : Type := (Z * list finding)%type.

Definition award (points : Z) (f : finding) (t : tally) : tally :=
  (fst t + points, snd t ++ [f]).

Definition remark (f : finding) (t : tally) : tally := award 0 f t.

(** Criterion 1, lines 33-40. *)
Definition length_criterion (password : str) (t : tally) : tally :=
  if len password >=? 12 then award 3 LengthExcellent t
  else if len password >=? 8 then award 2 LengthGood t
  else remark LengthTooShort t.

(** Criterion 2, lines 43-47. *)
Definition digit_criterion (password : str) (t : tally) : tally :=
  if re_search class_digit password then award 1 HasDigits t
  else remark NoDigits t.

(** Criterion 3, lines 50-55. *)
Definition case_criterion (password : str) (t : tally) : tally :=
  if re_search class_lower password && re_search class_upper password
  then award 2 MixedCase t
  else if re_search class_letter password then award 1 SingleCase t
  else t.

(** Criterion 4, lines 58-62. *)
Definition special_criterion (password : str) (t : tally) : tally :=
  if re_search class_special password then award 2 HasSpecial t
  else remark NoSpecial t.

(** Criteria 1 to 4 in sequence, lines 29-62. *)
Definition four_criteria (password : str) : tally :=
  special_criterion password
    (case_criterion password
       (digit_criterion password
          (length_criterion password (0, [])))).

Section Lowercase.

(** [str.lower] maps an ASCII character to its ASCII lower case.  What
    it does to a non-ASCII character is a matter of the interpreter's
    Unicode tables and (for the Greek capital sigma) of the characters
    around it; [lower_nonascii s i] stands for the characters that
    replace the non-ASCII character at index [i] of [s]. *)
Variable lower_nonascii : str -> nat -> str.

Fixpoint lower_from (whole : str) (i : nat) (s : str) : str :=
  match s with
  | [] => []
  | c :: rest =>
      (if is_ascii c then [ascii_lower c] else lower_nonascii whole i)
        ++ lower_from whole (S i) rest
  end.

Definition lower (s : str) : str := lower_from s 0 s.

(** Criterion 5, lines 65-67. *)
Definition common_password_override (password : str) (t : tally) : tally :=
  if in_common_passwords (lower password)
  then (0, snd t ++ [InCommonList])
  else t.

Definition calculate_password_strength (password : str) : analysis :=
  let t := common_password_override password (four_criteria password) in
  let score := fst t in
  let grade :=
    if score >=? 8 then (Excellent, Green)
    else if score >=? 5 then (Good, Yellow)
    else if score >=? 3 then (Medium, Orange)
    else (Weak, Red) in
  {| score := score;
     max_score := 10;
     strength := fst grade;
     color := snd grade;
     feedback := snd t;
     length := len password |}.

End Lowercase.

(** A fragment of the lower-case table, enough for the examples below: the
    Kelvin sign, Latin-1 capitals and the basic Cyrillic capitals. *)
Definition lower_nonascii_sample (s : str) (i : nat) : str :=
  let c := nth i s 0 in
  if c =? 0x212A then [107]
  else if in_range 0xC0 0xDE c && negb (c =? 0xD7) then [c + 32]
  else if in_range 0x410 0x42F c then [c + 32]
  else if in_range 0x400 0x40F c then [c + 80]
  else [c].

(** ** Exceptions *)

(** The subclasses of [requests.RequestException] that [requests.get] raises. *)
Inductive request_error : Type :=
  | ConnectionError | Timeout | HTTPError | TooManyRedirects
  | InvalidURL | OtherRequestError.

Inductive exn : Type :=
  | RequestException (e : request_error)
  | ValueError
  | UnicodeEncodeError
  | OtherException.

(** The outcome of a call: a value, or an exception that leaves the call. *)
Inductive outcome (A : Type) : Type :=
  | Return (a : A)
  | Raise (e : exn).
Arguments Return {A} a.
Arguments Raise {A} e.

Definition bind {A B : Type} (m : outcome A) (k : A -> outcome B) : outcome B :=
  match m with
  | Return a => k a
  | Raise e => Raise e
  end.

Notation "'let!' x ':=' m 'in' k" := (bind m (fun x => k))
  (at level 10, x pattern, m at level 100, k at level 200).

(** [try: body except requests.RequestException: handler] *)
Definition try_except_RequestException {A : Type}
    (body : outcome A) (handler : outcome A) : outcome A :=
  match body with
  | Raise (RequestException _) => handler
  | other => other
  end.

(** ** str.encode('utf-8') *)

Definition bytes := list Z.

Definition is_surrogate (c : codepoint) : bool := in_range 0xD800 0xDFFF c.

Definition utf8_char (c : codepoint) : bytes :=
  if c <? 0x80 then [c]
  else if c <? 0x800 then
    [Z.lor 0xC0 (Z.shiftr c 6); Z.lor 0x80 (Z.land c 0x3F)]
  else if c <? 0x10000 then
    [Z.lor 0xE0 (Z.shiftr c 12);
     Z.lor 0x80 (Z.land (Z.shiftr c 6) 0x3F);
     Z.lor 0x80 (Z.land c 0x3F)]
  else
    [Z.lor 0xF0 (Z.shiftr c 18);
     Z.lor 0x80 (Z.land (Z.shiftr c 12) 0x3F);
     Z.lor 0x80 (Z.land (Z.shiftr c 6) 0x3F);
     Z.lor 0x80 (Z.land c 0x3F)].

(** The strict error handler: a lone surrogate cannot be encoded. *)
Fixpoint encode_utf8 (s : str) : outcome bytes :=
  match s with
  | [] => Return []
  | c :: rest =>
      if is_surrogate c then Raise UnicodeEncodeError
      else let! tail := encode_utf8 rest in Return (utf8_char c ++ tail)
  end.

(** ** hashlib.sha1 *)

Module SHA1.

Definition word := Z.
Definition mask32 (x : Z) : word := x mod 2 ^ 32.
Definition add32 (x y : word) : word := mask32 (x + y).
Definition rotl (n : Z) (x : word) : word :=
  mask32 (Z.lor (Z.shiftl x n) (Z.shiftr x (32 - n))).
Definition not32 (x : word) : word := 2 ^ 32 - 1 - x.

(** Message padding: a 1 bit, zeros up to 56 mod 64 bytes, and the bit
    length as a 64-bit big-endian integer. *)
Definition be_bytes (n : nat) (x : Z) : bytes :=
  map (fun i => Z.shiftr x (8 * Z.of_nat i) mod 256) (rev (seq 0 n)).

Definition pad (msg : bytes) : bytes :=
  let l := Z.of_nat (List.length msg) in
  let zeros := Z.to_nat ((55 - l) mod 64) in
  msg ++ [0x80] ++ repeat 0 zeros ++ be_bytes 8 (8 * l).

Fixpoint be_word (bs : bytes) (acc : Z) : word :=
  match bs with
  | [] => acc
  | b :: rest => be_word rest (acc * 256 + b)
  end.

(** The big-endian 32-bit words of a block. *)
Fixpoint words (n : nat) (bs : bytes) : list word :=
  match n with
  | O => []
  | S n' => be_word (firstn 4 bs) 0 :: words n' (skipn 4 bs)
  end.

(** The message schedule, most recent word first. *)
Fixpoint schedule (n : nat) (w : list word) : list word :=
  match n with
  | O => w
  | S n' =>
      let x := Z.lxor (Z.lxor (nth 2 w 0) (nth 7 w 0))
                      (Z.lxor (nth 13 w 0) (nth 15 w 0)) in
      schedule n' (rotl 1 x :: w)
  end.

Definition state : Type := (word * word * word * word * word)%type.

Definition f (t : Z) (b c d : word) : word :=
  if t <? 20 then Z.lor (Z.land b c) (Z.land (not32 b) d)
  else if t <? 40 then Z.lxor (Z.lxor b c) d
  else if t <? 60 then Z.lor (Z.lor (Z.land b c) (Z.land b d)) (Z.land c d)
  else Z.lxor (Z.lxor b c) d.

Definition k (t : Z) : word :=
  if t <? 20 then 0x5A827999
  else if t <? 40 then 0x6ED9EBA1
  else if t <? 60 then 0x8F1BBCDC
  else 0xCA62C1D6.

Definition round (s : state) (tw : Z * word) : state :=
  let '(a, b, c, d, e) := s in
  let '(t, w) := tw in
  let temp := add32 (add32 (add32 (add32 (rotl 5 a) (f t b c d)) e) (k t)) w in
  (temp, a, rotl 30 b, c, d).

Definition compress (h : state) (block : bytes) : state :=
  let w := rev (schedule 64 (rev (words 16 block))) in
  let ts := map Z.of_nat (seq 0 80) in
  let '(a, b, c, d, e) := fold_left round (combine ts w) h in
  let '(h0, h1, h2, h3, h4) := h in
  (add32 h0 a, add32 h1 b, add32 h2 c, add32 h3 d, add32 h4 e).

Fixpoint blocks (n : nat) (h : state) (bs : bytes) : state :=
  match n with
  | O => h
  | S n' => blocks n' (compress h (firstn 64 bs)) (skipn 64 bs)
  end.

Definition initial : state :=
  (0x67452301, 0xEFCDAB89, 0x98BADCFE, 0x10325476, 0xC3D2E1F0).

Definition digest (msg : bytes) : bytes :=
  let padded := pad msg in
  let '(h0, h1, h2, h3, h4) :=
    blocks (Nat.div (List.length padded) 64) initial padded in
  be_bytes 4 h0 ++ be_bytes 4 h1 ++ be_bytes 4 h2 ++ be_bytes 4 h3
    ++ be_bytes 4 h4.

End SHA1.

(** [.hexdigest()]: two lower-case hexadecimal characters per byte. *)
Definition hex_digit (n : Z) : codepoint :=
  if n <? 10 then 48 + n else 87 + n.

Definition hex_byte (b : Z) : str :=
  [hex_digit (b / 16 mod 16); hex_digit (b mod 16)].

Definition hexdigest (digest : bytes) : str := flat_map hex_byte digest.

(** [.upper()], applied at line 96 to the ASCII output of [hexdigest]. *)
Definition upper (s : str) : str := map ascii_upper s.

(** Lines 96-98. *)
Definition sha1_hash (encoded : bytes) : str :=
  upper (hexdigest (SHA1.digest encoded)).
Definition prefix_of (hash : str) : str := firstn 5 hash.
Definition suffix_of (hash : str) : str := skipn 5 hash.


(** ** str.splitlines, str.split and int *)

(** The line boundaries of [str.splitlines]: LF, VT, FF, CR, FS, GS, RS,
    NEL, LS and PS; CR LF is one boundary. *)
Definition is_linebreak (c : codepoint) : bool :=
  in_range 0x0A 0x0D c || in_range 0x1C 0x1E c || (c =? 0x85)
  || (c =? 0x2028) || (c =? 0x2029).

Definition cons_to_first (c : codepoint) (ls : list str) : list str :=
  match ls with
  | l :: rest => (c :: l) :: rest
  | [] => [[c]]
  end.

Fixpoint splitlines (s : str) : list str :=
  match s with
  | [] => []
  | c :: rest =>
      if is_linebreak c then
        match rest with
        | c' :: rest' =>
            if (c =? 13) && (c' =? 10) then [] :: splitlines rest'
            else [] :: splitlines rest
        | [] => [[]]
        end
      else cons_to_first c (splitlines rest)
  end.

(** [s.split(sep)] for a one-character separator. *)
Fixpoint split (sep : codepoint) (s : str) : list str :=
  match s with
  | [] => [[]]
  | c :: rest =>
      if c =? sep then [] :: split sep rest
      else cons_to_first c (split sep rest)
  end.

(** [int(s)] for a [str] argument, as CPython computes it: non-ASCII
    white space and decimal digits are first brought to ASCII, then an
    optionally signed run of digits, single underscores allowed between
    digits, is read between optional white space.  [None] stands for
    [ValueError].  A run of more digits than the interpreter's limit
    ([sys.get_int_max_str_digits()], 4300 unless the interpreter is
    started otherwise; the program does not set it) is a [ValueError]
    too. *)

(** [_PyUnicode_TransformDecimalAndSpaceToASCII] on a string that is not
    all ASCII: conversion stops with a question mark at the first
    character that is neither. *)
Fixpoint transform_decimal_and_space (s : str) : str :=
  match s with
  | [] => []
  | c :: rest =>
      if c <? 127 then c :: transform_decimal_and_space rest
      else if is_unicode_space c then 32 :: transform_decimal_and_space rest
      else match to_decimal c with
           | Some d => (48 + d) :: transform_decimal_and_space rest
           | None => [63]
           end
  end.

(** [Py_ISSPACE] *)
Definition is_c_space (c : codepoint) : bool :=
  in_range 0x09 0x0D c || (c =? 0x20).

Definition is_ascii_digit (c : codepoint) : bool := in_range 48 57 c.

Fixpoint drop_while (p : codepoint -> bool) (s : str) : str :=
  match s with
  | c :: rest => if p c then drop_while p rest else s
  | [] => []
  end.

Fixpoint take_while (p : codepoint -> bool) (s : str) : str :=
  match s with
  | c :: rest => if p c then c :: take_while p rest else []
  | [] => []
  end.

Definition is_numeric_char (c : codepoint) : bool :=
  is_ascii_digit c || (c =? 95).

(** No underscore first, last, or next to another underscore. *)
Fixpoint underscores_ok (prev_digit : bool) (run : str) : bool :=
  match run with
  | [] => prev_digit
  | c :: rest =>
      if c =? 95 then prev_digit && underscores_ok false rest
      else underscores_ok true rest
  end.

(** The default of [sys.int_max_str_digits], and the number of digits
    below which the limit is not looked at. *)
Definition int_max_str_digits : Z := 4300.
Definition max_str_digits_threshold : Z := 640.

(** The digits of a run, its underscores apart. *)
Definition digit_count (run : str) : Z :=
  len (filter (fun c => negb (c =? 95)) run).

Definition exceeds_limit (run : str) : bool :=
  (digit_count run >? max_str_digits_threshold)
  && (int_max_str_digits >? 0)
  && (digit_count run >? int_max_str_digits).

Definition digits_value (run : str) : Z :=
  fold_left (fun acc c => if c =? 95 then acc else 10 * acc + (c - 48)) run 0.

(** [PyLong_FromString] with base 10. *)
Definition long_from_string (s : str) : option Z :=
  let s1 := drop_while is_c_space s in
  let '(sign, s2) :=
    match s1 with
    | c :: rest =>
        if c =? 43 then (1, rest)
        else if c =? 45 then (-1, rest)
        else (1, s1)
    | [] => (1, s1)
    end in
  let run := take_while is_numeric_char s2 in
  let rest := drop_while is_numeric_char s2 in
  if underscores_ok false run && negb (exceeds_limit run)
     && forallb is_c_space rest
  then Some (sign * digits_value run)
  else None.

Definition int (s : str) : outcome Z :=
  let ascii := if forallb is_ascii s then s else transform_decimal_and_space s in
  match long_from_string ascii with
  | Some n => Return n
  | None => Raise ValueError
  end.

(** ** check_pwned_api *)

Record response : Type := mkResponse {
  status_code : Z;
  text : str
}.

(** [requests.get(url, timeout=...)]: the request either yields a response
    or raises. *)
Definition transport : Type := str -> Z -> outcome response.

(** [self.api_url], line 14. *)
Definition api_url : str := lit "https://api.pwnedpasswords.com/range/".

(** The loop of lines 104-106 over the generator of line 103.  The
    generator is lazy: a line is split, and unpacked into [h, count], only
    when the loop reaches it. *)
Fixpoint scan (suffix : str) (lines : list str) : outcome (bool * Z) :=
  match lines with
  | [] => Return (false, 0)
  | line :: rest =>
      match split 58 line with
      | [h; count] =>
          if str_eqb h suffix
          then let! n := int count in Return (true, n)
          else scan suffix rest
      | _ => Raise ValueError
      end
  end.

(** Lines 102-107. *)
Definition read_response (suffix : str) (r : response) : outcome (bool * Z) :=
  if status_code r =? 200 then scan suffix (splitlines (text r))
  else Return (false, 0).

(** Lines 92-109. *)
Definition check_pwned_api (get : transport) (password : str)
    : outcome (bool * Z) :=
  try_except_RequestException
    (let! encoded := encode_utf8 password in
     let hash := sha1_hash encoded in
     let prefix := prefix_of hash in
     let suffix := suffix_of hash in
     let! response := get (api_url ++ prefix) 5 in
     read_response suffix response)
    (Return (false, -1)).

(** The URL that [check_pwned_api] requests, when it gets as far as the
    request. *)
Definition requested_url (password : str) : outcome str :=
  let! encoded := encode_utf8 password in
  Return (api_url ++ prefix_of (sha1_hash encoded)).


(** ** The requests of check_pwned_api

    The same lines with the one effect of the function made explicit:
    every call of [requests.get] is recorded, in order, with its URL and
    its timeout. *)

Record request : Type := mkRequest {
  request_url : str;
  request_timeout : Z
}.

(** A computation that makes requests: the requests made, and the
    outcome. *)
Definition io (A : Type) : Type := (list request * outcome A)%type.

(** A step that makes no request. *)
Definition io_pure {A : Type} (m : outcome A) : io A := ([], m).

Definition io_bind {A B : Type} (m : io A) (k : A -> io B) : io B :=
  match snd m with
  | Return a => (fst m ++ fst (k a), snd (k a))
  | Raise e => (fst m, Raise e)
  end.

Notation "'let#' x ':=' m 'in' k" := (io_bind m (fun x => k))
  (at level 10, x pattern, m at level 100, k at level 200).

(** [requests.get(url, timeout=timeout)] *)
Definition requests_get (get : transport) (url : str) (timeout : Z)
    : io response :=
  ([mkRequest url timeout], get url timeout).

(** [try: body except requests.RequestException: handler] *)
Definition io_try_except_RequestException {A : Type}
    (body : io A) (handler : io A) : io A :=
  match snd body with
  | Raise (RequestException _) => (fst body ++ fst handler, snd handler)
  | _ => body
  end.

(** Lines 92-109, with the requests made. *)
Definition check_pwned_api_io (get : transport) (password : str)
    : io (bool * Z) :=
  io_try_except_RequestException
    (let# encoded := io_pure (encode_utf8 password) in
     let hash := sha1_hash encoded in
     let prefix := prefix_of hash in
     let suffix := suffix_of hash in
     let# response := requests_get get (api_url ++ prefix) 5 in
     io_pure (read_response suffix response))
    (io_pure (Return (false, -1))).

(** A transport that answers every request with the same response. *)
Definition fixed_response (status : Z) (body : str) : transport :=
  fun _ _ => Return (mkResponse status body).

(** A transport whose every request fails. *)
Definition failing (e : request_error) : transport :=
  fun _ _ => Raise (RequestException e).

(** ** generate_recommendations *)

(** The entries of the list, by the line that appends them. *)
Inductive recommendation : Type :=
  | UrgentBreach (pwned_count : Z)   (* 116-117, with the count *)
  | IncreaseLength (current : Z)     (* 120, with the current length *)
  | CombineClasses                   (* 123 *)
  | DoNotReuse                       (* 125 *)
  | UsePasswordManager.              (* 126 *)

(** Lines 111-128. *)
Definition generate_recommendations
    (a : analysis) (is_pwned : bool) (pwned_count : Z) : list recommendation :=
  let recommendations := [] in
  let recommendations :=
    if is_pwned && (pwned_count >? 0)
    then recommendations ++ [UrgentBreach pwned_count]
    else recommendations in
  let recommendations :=
    if length a <? 8
    then recommendations ++ [IncreaseLength (length a)]
    else recommendations in
  let recommendations :=
    if score a <? 5
    then recommendations ++ [CombineClasses]
    else recommendations in
  let recommendations := recommendations ++ [DoNotReuse] in
  recommendations ++ [UsePasswordManager].

(** ** check_password and main *)

(** What [input] and the handlers of lines 213-218 can meet besides the
    exceptions of [check_password]: the end of the input. *)
Inductive caught : Type :=
  | Escaped (e : exn)
  | EOFError.

(** The calls of [print].  A call that prints a constant text is [Fixed]
    with its line in the source, except for the five constant lines that
    the statements below speak about; the prompt of [input] is [Prompt]. *)
Inductive printed : Type :=
  | Fixed (line : Z)
  | ScoreLine (c : colour) (score max_score : Z) (s : strength_label) (* 141 *)
  | FeedbackLine (f : finding)                                       (* 144 *)
  | FoundInBreaches (pwned_count : Z)                                (* 150 *)
  | ApiUnavailable                                                   (* 152 *)
  | NotInBreaches                                                    (* 154 *)
  | RecommendationLine (i : Z) (r : recommendation)                  (* 163 *)
  | Prompt                                                           (* 191 *)
  | Goodbye                                                          (* 194 *)
  | EmptyRejected                                                    (* 198 *)
  | Terminated                                                       (* 214 *)
  | ErrorLine (e : caught).                                          (* 217 *)

(** [enumerate(xs, start)] *)
Fixpoint enumerate {A : Type} (start : Z) (xs : list A) : list (Z * A) :=
  match xs with
  | [] => []
  | x :: rest => (start, x) :: enumerate (start + 1) rest
  end.

(** What [input] does at one call: it returns the line typed, or raises
    [KeyboardInterrupt], or raises [EOFError] at the end of the input. *)
Inductive input_event : Type :=
  | Typed (line : str)
  | CtrlC
  | EndOfInput.

(** How far [main] got on a finite list of input events. *)
Inductive ending : Type :=
  | Exited          (* [break] at line 195 *)
  | Interrupted     (* [break] at line 215 *)
  | AwaitingInput.  (* the next call of [input] has no event yet *)

Section Program.

Variable lower_nonascii : str -> nat -> str.
Variable get : transport.

(** Lines 130-171: what is printed, and whether the call returns or
    raises. *)
Definition check_password (password : str) : list printed * outcome unit :=
  let analysis := calculate_password_strength lower_nonascii password in
  let out :=
    [Fixed 132; Fixed 133; Fixed 134; Fixed 140;
     ScoreLine (color analysis) (score analysis) (max_score analysis)
       (strength analysis)]
    ++ map FeedbackLine (feedback analysis)
    ++ [Fixed 146] in
  match check_pwned_api get password with
  | Raise e => (out, Raise e)
  | Return (is_pwned, pwned_count) =>
      let out :=
        out ++ [if is_pwned then FoundInBreaches pwned_count
                else if pwned_count =? -1 then ApiUnavailable
                else NotInBreaches] in
      let out := out ++ [Fixed 157; Fixed 158; Fixed 159] in
      let recommendations :=
        generate_recommendations analysis is_pwned pwned_count in
      let out :=
        out ++ map (fun ir => RecommendationLine (fst ir) (snd ir))
                 (enumerate 1 recommendations) in
      (out ++ [Fixed 166; Fixed 167; Fixed 168; Fixed 169; Fixed 170;
               Fixed 171],
       Return tt)
  end.

(** The loop of lines 188-218 on the input events that are left.  Every
    exception of [exn] is an [Exception] for the handler of line 216. *)
Fixpoint main_loop (inputs : list input_event) : list printed * ending :=
  match inputs with
  | [] => ([Fixed 190; Prompt], AwaitingInput)
  | CtrlC :: _ => ([Fixed 190; Prompt; Terminated], Interrupted)
  | EndOfInput :: rest =>
      let (out, e) := main_loop rest in
      ([Fixed 190; Prompt; ErrorLine EOFError; Fixed 218] ++ out, e)
  | Typed password :: rest =>
      if str_eqb (lower lower_nonascii password) (lit "exit")
      then ([Fixed 190; Prompt; Goodbye], Exited)
      else if (List.length password =? 0)%nat
      then let (out, e) := main_loop rest in
           ([Fixed 190; Prompt; EmptyRejected] ++ out, e)
      else
        let (report, result) := check_password password in
        let after :=
          match result with
          | Return _ =>
              [Fixed 204; Fixed 205; Fixed 206; Fixed 207; Fixed 208;
               Fixed 209; Fixed 210; Fixed 211]
          | Raise e => [ErrorLine (Escaped e); Fixed 218]
          end in
        let (out, e) := main_loop rest in
        ([Fixed 190; Prompt] ++ report ++ after ++ out, e)
  end.

(** Lines 174-218. *)
Definition main (inputs : list input_event) : list printed * ending :=
  let (out, e) := main_loop inputs in
  ([Fixed 176; Fixed 177; Fixed 178; Fixed 179; Fixed 180; Fixed 181;
    Fixed 182; Fixed 183; Fixed 184] ++ out, e).

End Program.

(** * Vocabulary of the statements *)

(** The password contains a character of the class. *)
Definition contains (class : codepoint -> bool) (s : str) : Prop :=
  exists c, In c s /\ class c = true.

(** A character of [0-9A-F]. *)
Definition is_upper_hex (c : codepoint) : bool :=
  in_range 48 57 c || in_range 65 70 c.

(** A string that [splitlines] leaves in one piece. *)
Definition no_linebreak (l : str) : Prop :=
  Forall (fun c => is_linebreak c = false) l.

(** [sep.join(lines)] *)
Fixpoint join (sep : str) (lines : list str) : str :=
  match lines with
  | [] => []
  | l :: rest =>
      match rest with
      | [] => l
      | _ :: _ => l ++ sep ++ join sep rest
      end
  end.

(** The number that a string of ASCII digits denotes in base ten. *)
Definition decimal (digits : str) : Z :=
  fold_left (fun acc d => 10 * acc + (d - 48)) digits 0.

Definition all_digits (s : str) : Prop :=
  Forall (fun d => is_ascii_digit d = true) s.

(** A record of the range endpoint: a suffix and a count. *)
Definition record : Type := (str * str)%type.

(** The line [<suffix>:<count>]. *)
Definition render (r : record) : str := fst r ++ 58 :: snd r.

Definition is_hex (c : codepoint) : bool :=
  in_range 48 57 c || in_range 65 70 c || in_range 97 102 c.

(** 35 hexadecimal characters, and a count of one or more ASCII digits. *)
Definition well_formed_record (r : record) : bool :=
  (List.length (fst r) =? 35)%nat && forallb is_hex (fst r)
  && negb (List.length (snd r) =? 0)%nat && forallb is_ascii_digit (snd r).

(** The number of colons of a line. *)
Definition colons (line : str) : nat := count_occ Z.eq_dec line 58.

(** The two records of the examples: one from the documentation of the
    range endpoint, and the suffix of the SHA-1 hash of [password]. *)
Definition sample_records : list record :=
  [ (lit "0018A45C4D1DEF81644B54AB7F969B88D65", lit "3");
    (lit "1E4C9B93F3F0682250B6CF8331B7EE68FD8", lit "9659365") ].

(** The Cyrillic word for password, with a capital first letter. *)
Definition cyrillic_password : str :=
  [0x41F; 0x430; 0x440; 0x43E; 0x43B; 0x44C].

(** The points that the code adds when it appends a finding. *)
Definition points (f : finding) : Z :=
  match f with
  | LengthExcellent => 3
  | LengthGood => 2
  | HasDigits => 1
  | MixedCase => 2
  | SingleCase => 1
  | HasSpecial => 2
  | LengthTooShort | NoDigits | NoSpecial | InCommonList => 0
  end.

Definition sum (xs : list Z) : Z := fold_right Z.add 0 xs.

(** The line typed ends the session at line 193. *)
Definition is_exit (lower_nonascii : str -> nat -> str) (ev : input_event)
    : bool :=
  match ev with
  | Typed line => str_eqb (lower lower_nonascii line) (lit "exit")
  | _ => false
  end.

Definition is_ctrl_c (ev : input_event) : bool :=
  match ev with CtrlC => true | _ => false end.

(** The lines of a report that show the strength: the score line and the
    feedback lines. *)
Definition strength_lines (out : list printed) : list printed :=
  filter (fun p => match p with
                   | ScoreLine _ _ _ _ | FeedbackLine _ => true
                   | _ => false
                   end) out.

(** The lines of a report that show the outcome of the breach lookup. *)
Definition breach_lines (out : list printed) : list printed :=
  filter (fun p => match p with
                   | FoundInBreaches _ | ApiUnavailable | NotInBreaches => true
                   | _ => false
                   end) out.

(** The numbered recommendations of a report. *)
Definition recommendation_lines (out : list printed)
    : list (Z * recommendation) :=
  flat_map (fun p => match p with
                     | RecommendationLine i r => [(i, r)]
                     | _ => []
                     end) out.

(** * The model on known values *)

(** SHA-1 of the empty message, of [abc] (the test vectors of FIPS 180),
    and of the word [password]. *)
Example sha1_of_empty :
  sha1_hash [] = lit "DA39A3EE5E6B4B0D3255BFEF95601890AFD80709".
Proof. vm_compute. reflexivity. Qed.

Example sha1_of_abc :
  sha1_hash (lit "abc") = lit "A9993E364706816ABA3E25717850C26C9CD0D89D".
Proof. vm_compute. reflexivity. Qed.

Example sha1_of_password :
  sha1_hash (lit "password") = lit "5BAA61E4C9B93F3F0682250B6CF8331B7EE68FD8".
Proof. vm_compute. reflexivity. Qed.

(** A message of two blocks. *)
Example sha1_of_200_a :
  sha1_hash (repeat 97 200) = lit "E61CFFFE0D9195A525FC6CF06CA2D77119C24A40".
Proof. vm_compute. reflexivity. Qed.

(** One character of each length of UTF-8: A, Cyrillic pe, the euro sign
    and U+1F600. *)
Example utf8_of_each_length :
  encode_utf8 [0x41; 0x43F; 0x20AC; 0x1F600]
  = Return [0x41; 0xD0; 0xBF; 0xE2; 0x82; 0xAC; 0xF0; 0x9F; 0x98; 0x80].
Proof. reflexivity. Qed.

Example splitlines_examples :
  splitlines (lit "a" ++ [13; 10] ++ lit "b" ++ [10]) = [lit "a"; lit "b"]
  /\ splitlines [10; 10] = [[]; []]
  /\ splitlines [] = [].
Proof. repeat split. Qed.

Example split_examples :
  split 58 (lit "a:1") = [lit "a"; lit "1"]
  /\ split 58 (lit "a") = [lit "a"]
  /\ split 58 (lit "a:b:c") = [lit "a"; lit "b"; lit "c"]
  /\ split 58 [] = [[]].
Proof. repeat split. Qed.

Example int_examples :
  int (lit " +7 ") = Return 7
  /\ int (lit "1_000") = Return 1000
  /\ int (lit "007") = Return 7
  /\ int [0x663; 0x664] = Return 34
  /\ int (lit "1__0") = Raise ValueError
  /\ int (lit "3.5") = Raise ValueError
  /\ int [] = Raise ValueError.
Proof. repeat split. Qed.

(** The limit on the number of digits: 4300 digits are read, 4301 are
    not, be they zeros or after a sign; underscores do not count. *)
Example int_digit_limit :
  int (repeat 49 4300) <> Raise ValueError
  /\ int (repeat 49 4301) = Raise ValueError
  /\ int (repeat 48 4301) = Raise ValueError
  /\ int (45 :: repeat 49 4301) = Raise ValueError
  /\ int (List.concat (repeat [49; 95] 4299) ++ [49]) <> Raise ValueError.
Proof.
  repeat split; try (vm_compute; reflexivity);
    intros H; vm_compute in H; discriminate H.
Qed.

(** The first example of the end-to-end list: a common password. *)
Example analysis_of_123456 :
  calculate_password_strength lower_nonascii_sample (lit "123456")
  = {| score := 0; max_score := 10; strength := Weak; color := Red;
       feedback := [LengthTooShort; HasDigits; NoSpecial; InCommonList];
       length := 6 |}.
Proof. reflexivity. Qed.

(** The empty password fails the length criterion. *)
Example analysis_of_empty :
  calculate_password_strength lower_nonascii_sample []
  = {| score := 0; max_score := 10; strength := Weak; color := Red;
       feedback := [LengthTooShort; NoDigits; NoSpecial];
       length := 0 |}.
Proof. reflexivity. Qed.

(** * Properties of calculate_password_strength *)

Lemma re_search_contains class s :
  re_search class s = true <-> contains class s.
Proof. unfold re_search, contains. apply existsb_exists. Qed.

Lemma re_search_none class s :
  (forall c, In c s -> class c = false) -> re_search class s = false.
Proof.
  intros H. unfold re_search. induction s as [|c s IH]; simpl; auto.
  rewrite (H c (or_introl eq_refl)). simpl. apply IH. intros; apply H; now right.
Qed.

Ltac unfold_criteria :=
  unfold four_criteria, special_criterion, case_criterion, digit_criterion,
    length_criterion, remark, award.

Ltac split_criteria :=
  repeat match goal with
         | |- context [if ?b then _ else _] => destruct b eqn:?
         end.

Lemma four_criteria_bounds password :
  0 <= fst (four_criteria password) <= 8.
Proof. unfold_criteria. split_criteria; simpl; lia. Qed.

Lemma non_ascii_no_letter s :
  Forall (fun c => 127 < c) s ->
  re_search class_lower s = false /\ re_search class_upper s = false
  /\ re_search class_letter s = false.
Proof.
  intros H. rewrite Forall_forall in H.
  repeat split; apply re_search_none; intros c Hc; specialize (H c Hc);
    unfold class_lower, class_upper, class_letter, in_range; lia.
Qed.

Section Strength.

Variable lower_nonascii : str -> nat -> str.

(** C1, as amended: a password of at least 12 characters with a letter of
    [A-Z], a letter of [a-z], a decimal digit and a special character,
    whose lower-case form is not a common password, has score 8 (the sum
    3 + 1 + 2 + 2; not 10) and the label Excellent. *)
Theorem strong_password_scores_8 (password : str) :
  12 <= len password ->
  contains class_upper password ->
  contains class_lower password ->
  contains class_digit password ->
  contains class_special password ->
  in_common_passwords (lower lower_nonascii password) = false ->
  let r := calculate_password_strength lower_nonascii password in
  score r = 8 /\ strength r = Excellent.
Proof.
  intros Hlen Hup Hlo Hdi Hsp Hcommon r. unfold r.
  apply re_search_contains in Hup, Hlo, Hdi, Hsp.
  assert (Hfour : fst (four_criteria password) = 8).
  { unfold_criteria. rewrite Hup, Hlo, Hdi, Hsp.
    assert (Hge : (len password >=? 12) = true) by lia.
    rewrite Hge. reflexivity. }
  unfold calculate_password_strength, common_password_override.
  rewrite Hcommon. simpl. rewrite Hfour. split; reflexivity.
Qed.

(** C3: when the lower-case form of the password is a common password the
    score is 0 whatever the four criteria awarded, and the feedback is the
    feedback of the four criteria followed by the failing finding of the
    override. *)
Theorem common_password_resets_score (password : str) :
  in_common_passwords (lower lower_nonascii password) = true ->
  let r := calculate_password_strength lower_nonascii password in
  score r = 0
  /\ feedback r = snd (four_criteria password) ++ [InCommonList]
  /\ passes InCommonList = false.
Proof.
  intros Hcommon r. unfold r.
  unfold calculate_password_strength, common_password_override.
  rewrite Hcommon. simpl. repeat split.
Qed.

(** C8: the label follows from the final score by the thresholds 8, 5
    and 3. *)
Theorem strength_thresholds (password : str) :
  let r := calculate_password_strength lower_nonascii password in
  (8 <= score r -> strength r = Excellent)
  /\ (5 <= score r < 8 -> strength r = Good)
  /\ (3 <= score r < 5 -> strength r = Medium)
  /\ (score r < 3 -> strength r = Weak).
Proof.
  unfold calculate_password_strength. cbn zeta.
  set (s := fst (common_password_override lower_nonascii password
                   (four_criteria password))).
  simpl score. simpl strength.
  destruct (s >=? 8) eqn:H8; [|destruct (s >=? 5) eqn:H5;
                               [|destruct (s >=? 3) eqn:H3]];
    simpl; repeat split; intros; try reflexivity; lia.
Qed.

(** C9: the score lies between 0 and 8, so 9 and 10 are never attained,
    while the reported maximum is 10. *)
Theorem score_at_most_8 (password : str) :
  let r := calculate_password_strength lower_nonascii password in
  0 <= score r <= 8
  /\ max_score r = 10
  /\ score r <> 9
  /\ score r <> 10.
Proof.
  intros r. unfold r.
  assert (H : 0 <= score (calculate_password_strength lower_nonascii
                            password) <= 8).
  { unfold calculate_password_strength, common_password_override.
    simpl score.
    pose proof (four_criteria_bounds password).
    destruct (in_common_passwords _); simpl; lia. }
  repeat split; try lia; reflexivity.
Qed.

(** C10: the case criterion sees only the letters of ASCII, the digit
    criterion every Unicode decimal digit.  A password of non-ASCII
    characters gets no points and no finding from the case criterion; a
    password with a non-ASCII decimal digit gets the digit point. *)
Theorem ascii_letters_unicode_digits (password : str) :
  let r := calculate_password_strength lower_nonascii password in
  (Forall (fun c => 127 < c) password ->
     (forall t, case_criterion password t = t)
     /\ ~ In MixedCase (feedback r)
     /\ ~ In SingleCase (feedback r))
  /\ (forall d, In d password -> 127 < d -> is_decimal d = true ->
        (forall t, digit_criterion password t = award 1 HasDigits t)
        /\ In HasDigits (feedback r)).
Proof.
  intros r. unfold r. split.
  - intros Hna.
    destruct (non_ascii_no_letter password Hna) as (Hlo & Hup & Hle).
    assert (Hcase : forall t, case_criterion password t = t).
    { intros t. unfold case_criterion. now rewrite Hlo, Hle. }
    split; [exact Hcase|].
    unfold calculate_password_strength, common_password_override,
      four_criteria.
    rewrite Hcase. simpl feedback.
    unfold special_criterion, digit_criterion, length_criterion, remark,
      award.
    split; split_criteria; simpl; intuition discriminate.
  - intros d Hin Hd Hdec.
    assert (Hdigit : re_search class_digit password = true).
    { apply re_search_contains. exists d. split; assumption. }
    split.
    + intros t. unfold digit_criterion. now rewrite Hdigit.
    + unfold calculate_password_strength, common_password_override.
      simpl feedback. unfold_criteria. rewrite Hdigit.
      split_criteria; simpl; tauto.
Qed.

End Strength.

(** * Properties of check_pwned_api *)

(** ** The shape of the hash *)

Lemma be_bytes_length n x : List.length (SHA1.be_bytes n x) = n.
Proof. unfold SHA1.be_bytes. now rewrite length_map, length_rev, length_seq. Qed.

Lemma digest_length msg : List.length (SHA1.digest msg) = 20%nat.
Proof.
  unfold SHA1.digest.
  destruct (SHA1.blocks _ _ _) as [[[[h0 h1] h2] h3] h4].
  repeat rewrite length_app. repeat rewrite be_bytes_length. reflexivity.
Qed.

Lemma hexdigest_length d :
  List.length (hexdigest d) = (2 * List.length d)%nat.
Proof.
  unfold hexdigest. induction d as [|b d IH]; simpl; [reflexivity|].
  rewrite IH. lia.
Qed.

Lemma upper_hex_digit n :
  0 <= n < 16 -> is_upper_hex (ascii_upper (hex_digit n)) = true.
Proof.
  intros Hn. unfold hex_digit, ascii_upper, is_upper_hex, in_range.
  destruct (n <? 10) eqn:H10.
  - replace ((97 <=? 48 + n) && (48 + n <=? 122)) with false by lia. lia.
  - replace ((97 <=? 87 + n) && (87 + n <=? 122)) with true by lia. lia.
Qed.

Lemma sha1_hash_upper_hex encoded :
  Forall (fun c => is_upper_hex c = true) (sha1_hash encoded).
Proof.
  unfold sha1_hash, upper, hexdigest.
  induction (SHA1.digest encoded) as [|b d IH]; simpl; [constructor|].
  repeat constructor; try assumption;
    apply upper_hex_digit; apply Z.mod_pos_bound; lia.
Qed.

Lemma sha1_hash_length encoded : List.length (sha1_hash encoded) = 40%nat.
Proof.
  unfold sha1_hash, upper.
  now rewrite length_map, hexdigest_length, digest_length.
Qed.

Lemma prefix_length encoded :
  List.length (prefix_of (sha1_hash encoded)) = 5%nat.
Proof.
  unfold prefix_of. rewrite length_firstn, sha1_hash_length. reflexivity.
Qed.

Lemma suffix_length encoded :
  List.length (suffix_of (sha1_hash encoded)) = 35%nat.
Proof.
  unfold suffix_of. rewrite length_skipn, sha1_hash_length. reflexivity.
Qed.

Lemma prefix_upper_hex encoded :
  Forall (fun c => is_upper_hex c = true) (prefix_of (sha1_hash encoded)).
Proof.
  unfold prefix_of. pose proof (sha1_hash_upper_hex encoded) as H.
  rewrite Forall_forall in *. intros c Hc. apply H.
  rewrite <- (firstn_skipn 5 (sha1_hash encoded)). apply in_or_app. now left.
Qed.

(** ** Strings *)

Lemma str_eqb_eq a b : str_eqb a b = true <-> a = b.
Proof.
  revert b. induction a as [|x a IH]; destruct b as [|y b]; simpl;
    try (split; [discriminate|discriminate]); [tauto|].
  rewrite andb_true_iff, Z.eqb_eq, IH.
  split; [intros [-> ->]; reflexivity | intros H; inversion H; auto].
Qed.

Lemma str_eqb_neq a b : str_eqb a b = false <-> a <> b.
Proof.
  rewrite <- str_eqb_eq. destruct (str_eqb a b); split; congruence.
Qed.

Lemma str_eqb_refl a : str_eqb a a = true.
Proof. now apply str_eqb_eq. Qed.

(** ** The call as a function of the one request it makes *)

Lemma encode_utf8_requested_url password encoded :
  encode_utf8 password = Return encoded ->
  requested_url password = Return (api_url ++ prefix_of (sha1_hash encoded)).
Proof. intros H. unfold requested_url. now rewrite H. Qed.

Lemma requested_url_inv password url :
  requested_url password = Return url ->
  exists encoded,
    encode_utf8 password = Return encoded
    /\ url = api_url ++ prefix_of (sha1_hash encoded).
Proof.
  unfold requested_url. destruct (encode_utf8 password) as [encoded|e]; simpl;
    [|discriminate].
  intros H. inversion H. now exists encoded.
Qed.

Lemma check_pwned_api_unfold get password encoded :
  encode_utf8 password = Return encoded ->
  check_pwned_api get password =
  try_except_RequestException
    (let! r := get (api_url ++ prefix_of (sha1_hash encoded)) 5 in
     read_response (suffix_of (sha1_hash encoded)) r)
    (Return (false, -1)).
Proof. intros H. unfold check_pwned_api. now rewrite H. Qed.

Lemma encode_utf8_total password :
  Forall (fun c => is_surrogate c = false) password ->
  exists encoded, encode_utf8 password = Return encoded.
Proof.
  induction 1 as [|c s Hc _ [enc IH]]; simpl.
  - now exists [].
  - rewrite Hc, IH. simpl. eauto.
Qed.

(** A password with a lone surrogate is not encoded, and no request is
    made: the call raises whatever the transport is. *)
Lemma lone_surrogate_raises get password :
  Exists (fun c => is_surrogate c = true) password ->
  check_pwned_api get password = Raise UnicodeEncodeError.
Proof.
  intros H. unfold check_pwned_api.
  assert (He : encode_utf8 password = Raise UnicodeEncodeError).
  { induction password as [|c s IH]; [inversion H|]. simpl.
    destruct (is_surrogate c) eqn:Hc; [reflexivity|].
    inversion H; subst; [congruence|]. now rewrite IH. }
  now rewrite He.
Qed.

(** ** Request failures and the transmitted prefix *)

(** C4: when the request raises a [requests.RequestException] the call
    returns [(False, -1)], and when the response has a status other than
    200 it returns [(False, 0)]; in neither case does it raise. *)
Theorem transport_failure_is_not_raised
    (get : transport) (password url : str) :
  requested_url password = Return url ->
  (forall e, get url 5 = Raise (RequestException e) ->
     check_pwned_api get password = Return (false, -1))
  /\ (forall r, get url 5 = Return r -> status_code r <> 200 ->
        check_pwned_api get password = Return (false, 0)).
Proof.
  intros Hurl. apply requested_url_inv in Hurl as (encoded & Henc & ->).
  rewrite (check_pwned_api_unfold get password encoded Henc).
  split.
  - intros e He. now rewrite He.
  - intros r Hr Hstatus. rewrite Hr. simpl. unfold read_response.
    apply Z.eqb_neq in Hstatus. now rewrite Hstatus.
Qed.

Lemma transport_failure_is_not_raised_witness :
  check_pwned_api (failing Timeout) (lit "password") = Return (false, -1)
  /\ check_pwned_api (fixed_response 503 []) (lit "password")
     = Return (false, 0).
Proof.
  split.
  - apply (proj1 (transport_failure_is_not_raised (failing Timeout)
                    (lit "password") (api_url ++ lit "5BAA6") eq_refl)
             Timeout).
    reflexivity.
  - apply (proj2 (transport_failure_is_not_raised (fixed_response 503 [])
                    (lit "password") (api_url ++ lit "5BAA6") eq_refl)
             (mkResponse 503 [])).
    + reflexivity.
    + simpl. lia.
Defined.

Lemma check_pwned_api_io_result get password :
  snd (check_pwned_api_io get password) = check_pwned_api get password.
Proof.
  unfold check_pwned_api_io, check_pwned_api,
    io_try_except_RequestException, try_except_RequestException, io_bind,
    io_pure, requests_get.
  destruct (encode_utf8 password) as [encoded|e]; cbn [fst snd bind].
  - destruct (get _ 5) as [r|e]; cbn [fst snd bind].
    + destruct (read_response _ r) as [result|e]; [reflexivity|].
      now destruct e.
    + now destruct e.
  - now destruct e.
Qed.

Lemma check_pwned_api_io_requests get password encoded :
  encode_utf8 password = Return encoded ->
  fst (check_pwned_api_io get password)
  = [mkRequest (api_url ++ prefix_of (sha1_hash encoded)) 5].
Proof.
  intros Henc.
  unfold check_pwned_api_io, io_try_except_RequestException, io_bind,
    io_pure, requests_get.
  rewrite Henc. cbn [fst snd app].
  destruct (get _ 5) as [r|e]; cbn [fst snd app].
  - destruct (read_response _ r) as [result|e]; [reflexivity|].
    now destruct e.
  - now destruct e.
Qed.

(** No request is made for a password that cannot be encoded. *)
Lemma no_request_without_encoding get password e :
  encode_utf8 password = Raise e ->
  fst (check_pwned_api_io get password) = [].
Proof.
  intros Henc.
  unfold check_pwned_api_io, io_try_except_RequestException, io_bind,
    io_pure.
  rewrite Henc. cbn [fst snd]. now destruct e.
Qed.

(** C6: the call makes one request, to [api_url] followed by the first
    five characters of the upper-case hexadecimal SHA-1 digest of the
    UTF-8 encoding of the password, with the timeout 5, and those five
    are characters of [0-9A-F]; it makes no other request, whatever the
    transport answers.  The requests are the same for any two passwords
    with the same prefix, so they are the same for two calls with the
    same password and carry nothing of the 35 other characters of the
    hash or of the password.  The result of the call depends on the
    transport at that URL only. *)
Theorem request_discloses_only_prefix (password : str) (encoded : bytes) :
  encode_utf8 password = Return encoded ->
  let prefix := firstn 5 (upper (hexdigest (SHA1.digest encoded))) in
  requested_url password = Return (api_url ++ prefix)
  /\ List.length prefix = 5%nat
  /\ Forall (fun c => is_upper_hex c = true) prefix
  /\ (forall get1 get2 : transport,
        get1 (api_url ++ prefix) 5 = get2 (api_url ++ prefix) 5 ->
        check_pwned_api get1 password = check_pwned_api get2 password)
  /\ (forall password' encoded',
        encode_utf8 password' = Return encoded' ->
        firstn 5 (upper (hexdigest (SHA1.digest encoded'))) = prefix ->
        requested_url password' = requested_url password)
  /\ (forall get : transport,
        fst (check_pwned_api_io get password)
        = [mkRequest (api_url ++ prefix) 5]
        /\ snd (check_pwned_api_io get password)
           = check_pwned_api get password)
  /\ (forall (get get' : transport) password' encoded',
        encode_utf8 password' = Return encoded' ->
        firstn 5 (upper (hexdigest (SHA1.digest encoded'))) = prefix ->
        fst (check_pwned_api_io get' password')
        = fst (check_pwned_api_io get password)).
Proof.
  intros Henc prefix.
  assert (Hp : prefix = prefix_of (sha1_hash encoded)) by reflexivity.
  split; [now apply encode_utf8_requested_url|].
  split; [rewrite Hp; apply prefix_length|].
  split; [rewrite Hp; apply prefix_upper_hex|].
  split; [|split; [|split]].
  - intros get1 get2 Hsame.
    rewrite (check_pwned_api_unfold get1 password encoded Henc).
    rewrite (check_pwned_api_unfold get2 password encoded Henc).
    rewrite <- Hp. now rewrite Hsame.
  - intros password' encoded' Henc' Hsame.
    rewrite (encode_utf8_requested_url _ _ Henc').
    rewrite (encode_utf8_requested_url _ _ Henc).
    unfold prefix_of, sha1_hash. now rewrite Hsame.
  - intros get. split.
    + rewrite Hp. now apply check_pwned_api_io_requests.
    + apply check_pwned_api_io_result.
  - intros get get' password' encoded' Henc' Hsame.
    rewrite (check_pwned_api_io_requests get' password' encoded' Henc').
    rewrite (check_pwned_api_io_requests get password encoded Henc).
    unfold prefix_of, sha1_hash. now rewrite Hsame.
Qed.

Lemma request_discloses_only_prefix_witness :
  requested_url (lit "password")
  = Return (lit "https://api.pwnedpasswords.com/range/5BAA6")
  /\ fst (check_pwned_api_io (failing Timeout) (lit "password"))
     = [mkRequest (lit "https://api.pwnedpasswords.com/range/5BAA6") 5].
Proof.
  destruct (request_discloses_only_prefix (lit "password") (lit "password")
              eq_refl) as (Hurl & _ & _ & _ & _ & Hio & _).
  split; [exact Hurl|exact (proj1 (Hio (failing Timeout)))].
Defined.

(** ** Lines and fields *)

Lemma splitlines_lf l s :
  no_linebreak l -> splitlines (l ++ 10 :: s) = l :: splitlines s.
Proof.
  induction 1 as [|c l Hc _ IH]; simpl.
  - destruct s; reflexivity.
  - now rewrite Hc, IH.
Qed.

Lemma splitlines_crlf l s :
  no_linebreak l -> splitlines (l ++ 13 :: 10 :: s) = l :: splitlines s.
Proof.
  induction 1 as [|c l Hc _ IH]; simpl.
  - reflexivity.
  - now rewrite Hc, IH.
Qed.

Lemma splitlines_single l :
  l <> [] -> no_linebreak l -> splitlines l = [l].
Proof.
  intros Hne H. induction H as [|c l Hc Hl IH]; [congruence|].
  simpl. rewrite Hc. destruct l as [|c' l'].
  - reflexivity.
  - rewrite IH by discriminate. reflexivity.
Qed.

Lemma splitlines_join sep lines :
  sep = [10] \/ sep = [13; 10] ->
  Forall (fun l => l <> [] /\ no_linebreak l) lines ->
  splitlines (join sep lines) = lines.
Proof.
  intros Hsep H. induction H as [|l rest [Hne Hl] Hrest IH]; [reflexivity|].
  destruct rest as [|l' rest'].
  - simpl. now apply splitlines_single.
  - change (join sep (l :: l' :: rest')) with (l ++ sep ++ join sep (l' :: rest')).
    destruct Hsep as [-> | ->].
    + change (l ++ [10] ++ ?t) with (l ++ 10 :: t).
      rewrite splitlines_lf by assumption. now rewrite IH.
    + change (l ++ [13; 10] ++ ?t) with (l ++ 13 :: 10 :: t).
      rewrite splitlines_crlf by assumption. now rewrite IH.
Qed.

Lemma split_no_sep sep f :
  Forall (fun c => c <> sep) f -> split sep f = [f].
Proof.
  induction 1 as [|c f Hc _ IH]; simpl; [reflexivity|].
  apply Z.eqb_neq in Hc. now rewrite Hc, IH.
Qed.

Lemma split_one_sep sep h c :
  Forall (fun x => x <> sep) h -> Forall (fun x => x <> sep) c ->
  split sep (h ++ sep :: c) = [h; c].
Proof.
  intros Hh Hc. induction Hh as [|x h Hx _ IH]; simpl.
  - rewrite Z.eqb_refl. now rewrite split_no_sep.
  - apply Z.eqb_neq in Hx. now rewrite Hx, IH.
Qed.

Lemma split_length sep s :
  List.length (split sep s) = S (count_occ Z.eq_dec s sep).
Proof.
  induction s as [|c s IH]; simpl; [reflexivity|].
  destruct (Z.eqb_spec c sep) as [->|Hne].
  - destruct (Z.eq_dec sep sep); [|congruence]. simpl. now rewrite IH.
  - destruct (Z.eq_dec c sep); [congruence|].
    destruct (split sep s); simpl in *; [discriminate|assumption].
Qed.

Lemma in_cons_to_first c ls f x :
  In f (cons_to_first c ls) -> In x f ->
  x = c \/ exists f', In f' ls /\ In x f'.
Proof.
  destruct ls as [|l rest]; simpl.
  - intros [<-|[]] [<-|[]]. now left.
  - intros [<-|Hf] Hx.
    + destruct Hx as [<-|Hx]; [now left|]. right. exists l. auto.
    + right. exists f. auto.
Qed.

Lemma in_split sep s f x : In f (split sep s) -> In x f -> In x s.
Proof.
  revert f. induction s as [|c s IH]; simpl; intros f Hf Hx.
  - destruct Hf as [<-|[]]. destruct Hx.
  - destruct (c =? sep).
    + destruct Hf as [<-|Hf]; [destruct Hx|]. right. eauto.
    + destruct (in_cons_to_first _ _ _ _ Hf Hx) as [->|(f' & Hf' & Hx')];
        [now left|right; eauto].
Qed.

Lemma in_splitlines s : forall l x, In l (splitlines s) -> In x l -> In x s.
Proof.
  induction s as [s IH] using (well_founded_induction
    (Wf_nat.well_founded_ltof _ (@List.length codepoint))).
  unfold Wf_nat.ltof in IH. intros l x Hl Hx.
  destruct s as [|c rest]; simpl in Hl; [destruct Hl|].
  destruct (is_linebreak c).
  - destruct rest as [|c' rest'].
    + destruct Hl as [<-|[]]. destruct Hx.
    + destruct ((c =? 13) && (c' =? 10)).
      * destruct Hl as [<-|Hl]; [destruct Hx|].
        right. right. apply (IH rest') with (l := l); simpl; auto.
      * destruct Hl as [<-|Hl]; [destruct Hx|].
        right. apply (IH (c' :: rest')) with (l := l); simpl; auto.
  - destruct (in_cons_to_first _ _ _ _ Hl Hx) as [->|(l' & Hl' & Hx')];
      [now left|].
    right. apply (IH rest) with (l := l'); simpl; auto.
Qed.

(** ** int *)

Lemma take_while_all p s :
  Forall (fun c => p c = true) s -> take_while p s = s.
Proof. induction 1 as [|c s Hc _ IH]; simpl; [|rewrite Hc, IH]; reflexivity. Qed.

Lemma drop_while_all p s :
  Forall (fun c => p c = true) s -> drop_while p s = [].
Proof. induction 1 as [|c s Hc _ IH]; simpl; [|rewrite Hc, IH]; reflexivity. Qed.

Lemma take_while_holds p s : Forall (fun c => p c = true) (take_while p s).
Proof.
  induction s as [|c s IH]; simpl; [constructor|].
  destruct (p c) eqn:Hc; constructor; assumption.
Qed.

Lemma drop_while_incl p s x : In x (drop_while p s) -> In x s.
Proof.
  induction s as [|c s IH]; simpl; [tauto|].
  destruct (p c); [intros H; right; auto|tauto].
Qed.

Lemma digit_facts d :
  is_ascii_digit d = true ->
  is_ascii d = true /\ is_c_space d = false /\ (d =? 43) = false
  /\ (d =? 45) = false /\ (d =? 95) = false /\ is_numeric_char d = true.
Proof.
  unfold is_numeric_char, is_ascii_digit, is_ascii, is_c_space, in_range.
  intros H. apply andb_true_iff in H as [Hlo Hhi].
  apply Z.leb_le in Hlo, Hhi. repeat split; lia.
Qed.

Lemma underscores_ok_digits s :
  all_digits s -> underscores_ok true s = true.
Proof.
  induction 1 as [|d s Hd _ IH]; simpl; [reflexivity|].
  destruct (digit_facts d Hd) as (_ & _ & _ & _ & H95 & _). now rewrite H95.
Qed.

Lemma digits_value_decimal s :
  all_digits s -> digits_value s = decimal s.
Proof.
  unfold digits_value, decimal. intros Hs. generalize 0.
  induction Hs as [|d s Hd _ IH]; intros acc; simpl; [reflexivity|].
  destruct (digit_facts d Hd) as (_ & _ & _ & _ & H95 & _). now rewrite H95.
Qed.

Lemma digit_count_digits s : all_digits s -> digit_count s = len s.
Proof.
  unfold digit_count. intros Hs. f_equal.
  induction Hs as [|d s Hd _ IH]; [reflexivity|].
  destruct (digit_facts d Hd) as (_ & _ & _ & _ & H95 & _).
  cbn [filter]. rewrite H95. cbn [negb]. now rewrite IH.
Qed.

Lemma exceeds_limit_digits s :
  all_digits s ->
  exceeds_limit s = negb (len s <=? int_max_str_digits).
Proof.
  intros Hs. unfold exceeds_limit. rewrite (digit_count_digits s Hs).
  unfold int_max_str_digits, max_str_digits_threshold.
  destruct (Z.leb_spec (len s) 4300) as [Hle|Hgt]; cbn [negb].
  - replace (len s >? 4300) with false by lia. now rewrite andb_false_r.
  - replace (len s >? 4300) with true by lia.
    replace (len s >? 640) with true by lia. reflexivity.
Qed.

(** A count of ASCII digits is read as the number it denotes, unless it
    has more digits than the limit. *)
Lemma int_decimal s :
  s <> [] -> all_digits s ->
  int s = if len s <=? int_max_str_digits then Return (decimal s)
          else Raise ValueError.
Proof.
  intros Hne Hs. unfold int.
  assert (Hascii : forallb is_ascii s = true).
  { apply forallb_forall. intros d Hd. unfold all_digits in Hs.
    rewrite Forall_forall in Hs. now apply digit_facts, Hs. }
  rewrite Hascii. unfold long_from_string.
  destruct s as [|d s']; [congruence|].
  pose proof (Forall_inv Hs) as Hd. simpl in Hd.
  destruct (digit_facts d Hd) as (_ & Hsp & H43 & H45 & H95 & Hnum).
  cbn [drop_while]. rewrite Hsp, H43, H45.
  assert (Hall : Forall (fun c => is_numeric_char c = true) (d :: s')).
  { unfold all_digits in Hs. rewrite Forall_forall in *.
    intros c Hc. now apply digit_facts, Hs. }
  rewrite (take_while_all _ _ Hall), (drop_while_all _ _ Hall).
  rewrite (digits_value_decimal _ Hs), (exceeds_limit_digits _ Hs).
  cbn [underscores_ok]. rewrite H95.
  rewrite (underscores_ok_digits s' (Forall_inv_tail Hs)). simpl forallb.
  destruct (len (d :: s') <=? int_max_str_digits); cbn [andb negb];
    [now rewrite Z.mul_1_l|reflexivity].
Qed.

Lemma to_decimal_nonneg c d : to_decimal c = Some d -> 0 <= d.
Proof.
  unfold to_decimal. destruct (in_range 0x1D7CE 0x1D7FF c).
  - intros [= <-]. apply Z.mod_pos_bound. lia.
  - destruct (find _ decimal_runs) as [b|] eqn:Hf; [|discriminate].
    apply find_some in Hf as [_ Hb]. intros [= <-].
    unfold in_range in Hb. lia.
Qed.

Lemma transform_keeps_minus s :
  In 45 (transform_decimal_and_space s) -> In 45 s.
Proof.
  induction s as [|c s IH]; cbn [transform_decimal_and_space In]; [tauto|].
  destruct (c <? 127).
  - intros [H|H]; auto.
  - destruct (is_unicode_space c).
    + intros [H|H]; [discriminate|auto].
    + destruct (to_decimal c) as [d|] eqn:Hd.
      * intros [H|H]; [|auto]. apply to_decimal_nonneg in Hd. exfalso. lia.
      * intros [H|[]]. discriminate.
Qed.

Lemma digits_value_nonneg run :
  Forall (fun c => is_numeric_char c = true) run -> 0 <= digits_value run.
Proof.
  unfold digits_value.
  assert (H : forall acc, 0 <= acc ->
            Forall (fun c => is_numeric_char c = true) run ->
            0 <= fold_left
                   (fun acc c => if c =? 95 then acc else 10 * acc + (c - 48))
                   run acc).
  { induction run as [|c run IH]; intros acc Hacc Hrun; cbn [fold_left];
      [assumption|].
    apply IH; [|now apply Forall_inv_tail in Hrun].
    apply Forall_inv in Hrun.
    unfold is_numeric_char, is_ascii_digit, in_range in Hrun.
    rewrite orb_true_iff, andb_true_iff, !Z.leb_le, Z.eqb_eq in Hrun.
    destruct (Z.eqb_spec c 95); lia. }
  apply H. lia.
Qed.

Lemma long_from_string_negative s n :
  long_from_string s = Some n -> n < 0 -> In 45 s.
Proof.
  unfold long_from_string. intros H Hn.
  assert (Hpos : forall s2,
            0 <= digits_value (take_while is_numeric_char s2)).
  { intros s2. apply digits_value_nonneg, take_while_holds. }
  assert (Hsome : forall a b : Z, Some a = Some b -> a = b)
    by (intros a b E; congruence).
  destruct (drop_while is_c_space s) as [|c rest] eqn:Hs1.
  - destruct (_ && _); [|discriminate]. apply Hsome in H.
    specialize (Hpos (@nil codepoint)). exfalso. cbv beta iota zeta in H. lia.
  - destruct (c =? 43) eqn:H43.
    + destruct (_ && _); [|discriminate]. apply Hsome in H.
      specialize (Hpos rest). exfalso. lia.
    + destruct (c =? 45) eqn:H45.
      * apply Z.eqb_eq in H45. subst c.
        apply (drop_while_incl is_c_space). rewrite Hs1. now left.
      * destruct (_ && _); [|discriminate]. apply Hsome in H.
        specialize (Hpos (c :: rest)). exfalso. lia.
Qed.

Lemma int_negative s n : int s = Return n -> n < 0 -> In 45 s.
Proof.
  unfold int. intros H Hn.
  destruct (long_from_string _) as [m|] eqn:Hl; [|discriminate].
  inversion H; subst m.
  apply long_from_string_negative in Hl; [|assumption].
  destruct (forallb is_ascii s); [assumption|].
  now apply transform_keeps_minus.
Qed.

(** ** The scan of the response *)

Lemma well_formed_record_inv r :
  well_formed_record r = true ->
  Forall (fun c => is_hex c = true) (fst r)
  /\ snd r <> [] /\ all_digits (snd r).
Proof.
  unfold well_formed_record. rewrite !andb_true_iff.
  intros [[[_ Hhex] Hne] Hdig]. repeat split.
  - apply Forall_forall. now apply forallb_forall.
  - intros E. rewrite E in Hne. discriminate.
  - apply Forall_forall. now apply forallb_forall.
Qed.

Lemma hex_facts c :
  is_hex c = true -> c <> 58 /\ is_linebreak c = false.
Proof.
  unfold is_hex, is_linebreak, in_range.
  rewrite !orb_true_iff, !andb_true_iff, !Z.leb_le. intros H. split; lia.
Qed.

Lemma digit_line_facts c :
  is_ascii_digit c = true -> c <> 58 /\ is_linebreak c = false.
Proof.
  unfold is_ascii_digit, is_linebreak, in_range.
  rewrite !andb_true_iff, !Z.leb_le. intros H. split; lia.
Qed.

Lemma split_render r :
  well_formed_record r = true -> split 58 (render r) = [fst r; snd r].
Proof.
  intros H. apply well_formed_record_inv in H as (Hhex & _ & Hdig).
  unfold render. apply split_one_sep.
  - eapply Forall_impl; [|exact Hhex]. intros c Hc. now apply hex_facts.
  - eapply Forall_impl; [|exact Hdig]. intros c Hc. now apply digit_line_facts.
Qed.

Lemma render_is_line r :
  well_formed_record r = true -> render r <> [] /\ no_linebreak (render r).
Proof.
  intros H. apply well_formed_record_inv in H as (Hhex & _ & Hdig).
  unfold render. split.
  - destruct (fst r); discriminate.
  - apply Forall_app. split; [|constructor; [reflexivity|]].
    + eapply Forall_impl; [|exact Hhex]. intros c Hc. now apply hex_facts.
    + eapply Forall_impl; [|exact Hdig]. intros c Hc. now apply digit_line_facts.
Qed.

Lemma splitlines_records sep records :
  sep = [10] \/ sep = [13; 10] ->
  forallb well_formed_record records = true ->
  splitlines (join sep (map render records)) = map render records.
Proof.
  intros Hsep H. apply splitlines_join; [assumption|].
  apply Forall_forall. intros l Hl. apply in_map_iff in Hl as (r & <- & Hr).
  apply render_is_line. rewrite forallb_forall in H. now apply H.
Qed.

(** On well-formed records the scan reads the count of the first record
    with the suffix. *)
Lemma scan_records suffix records :
  forallb well_formed_record records = true ->
  scan suffix (map render records)
  = match find (fun r => str_eqb (fst r) suffix) records with
    | Some r => if len (snd r) <=? int_max_str_digits
                then Return (true, decimal (snd r))
                else Raise ValueError
    | None => Return (false, 0)
    end.
Proof.
  induction records as [|r records IH]; [reflexivity|].
  cbn [forallb]. rewrite andb_true_iff. intros [Hr Hrest].
  cbn [map scan find]. rewrite (split_render r Hr).
  destruct (str_eqb (fst r) suffix).
  - apply well_formed_record_inv in Hr as (_ & Hne & Hdig).
    rewrite (int_decimal _ Hne Hdig).
    now destruct (len (snd r) <=? int_max_str_digits).
  - now apply IH.
Qed.

Lemma scan_skips suffix before rest :
  Forall (fun l => exists h c, split 58 l = [h; c] /\ h <> suffix) before ->
  scan suffix (before ++ rest) = scan suffix rest.
Proof.
  induction 1 as [|l before (h & c & Hsplit & Hne) _ IH]; [reflexivity|].
  cbn [app scan]. rewrite Hsplit.
  apply str_eqb_neq in Hne. now rewrite Hne.
Qed.

Lemma scan_found suffix lines n :
  scan suffix lines = Return (true, n) ->
  exists line h c,
    In line lines /\ split 58 line = [h; c] /\ h = suffix /\ int c = Return n.
Proof.
  induction lines as [|line lines IH]; cbn [scan]; [discriminate|].
  destruct (split 58 line) as [|h [|c [|x fields]]] eqn:Hsplit; try discriminate.
  destruct (str_eqb h suffix) eqn:Hh.
  - destruct (int c) as [m|e] eqn:Hint; cbn [bind]; [|discriminate].
    intros [= <-]. apply str_eqb_eq in Hh.
    exists line, h, c. repeat split; auto. now left.
  - intros H. destruct (IH H) as (l & h' & c' & Hin & Hrest).
    exists l, h', c'. split; [now right|assumption].
Qed.

Lemma scan_not_found suffix lines n :
  scan suffix lines = Return (false, n) -> n = 0.
Proof.
  induction lines as [|line lines IH]; cbn [scan].
  - now intros [= <-].
  - destruct (split 58 line) as [|h [|c [|x fields]]]; try discriminate.
    destruct (str_eqb h suffix); [|exact IH].
    destruct (int c); cbn [bind]; discriminate.
Qed.

(** C5, the claim refuted: a record of the stated form whose count has
    4301 digits, matched by the suffix of the password's hash, makes the
    call raise [ValueError]. *)
Lemma count_beyond_the_limit_raises :
  let record := (lit "1E4C9B93F3F0682250B6CF8331B7EE68FD8", repeat 49 4301) in
  well_formed_record record = true
  /\ suffix_of (sha1_hash (lit "password")) = fst record
  /\ check_pwned_api (fixed_response 200 (render record)) (lit "password")
     = Raise ValueError.
Proof. cbv zeta. repeat split; vm_compute; reflexivity. Qed.

(** C5, as amended: for a response with status 200 whose body is
    well-formed records separated by newlines (LF, or CR LF as the
    service sends them), the call reads the count of the first record
    whose suffix is the suffix of the password's hash: it returns
    [(True, c)] with [c] that count when the count has at most 4300
    digits, the interpreter's limit, and raises [ValueError] when it has
    more; it returns [(False, 0)] when no record has that suffix. *)
Theorem lookup_in_well_formed_body
    (get : transport) (password : str) (encoded : bytes)
    (sep : str) (records : list record) :
  encode_utf8 password = Return encoded ->
  sep = [10] \/ sep = [13; 10] ->
  forallb well_formed_record records = true ->
  get (api_url ++ prefix_of (sha1_hash encoded)) 5
    = Return (mkResponse 200 (join sep (map render records))) ->
  let suffix := suffix_of (sha1_hash encoded) in
  let result := check_pwned_api get password in
  result = match find (fun r => str_eqb (fst r) suffix) records with
           | Some r => if len (snd r) <=? int_max_str_digits
                       then Return (true, decimal (snd r))
                       else Raise ValueError
           | None => Return (false, 0)
           end
  /\ ((exists c, In (suffix, c) records) ->
      (forall c, In (suffix, c) records -> len c <= int_max_str_digits) ->
      exists c, In (suffix, c) records /\ result = Return (true, decimal c))
  /\ (forall c, In (suffix, c) records ->
      (forall c', In (suffix, c') records -> c' = c) ->
      result = if len c <=? int_max_str_digits
               then Return (true, decimal c)
               else Raise ValueError)
  /\ ((forall c, ~ In (suffix, c) records) -> result = Return (false, 0)).
Proof.
  intros Henc Hsep Hwf Hget suffix result.
  assert (Hresult :
    result = match find (fun r => str_eqb (fst r) suffix) records with
             | Some r => if len (snd r) <=? int_max_str_digits
                         then Return (true, decimal (snd r))
                         else Raise ValueError
             | None => Return (false, 0)
             end).
  { unfold result. rewrite (check_pwned_api_unfold get password encoded Henc).
    rewrite Hget. cbn [bind]. unfold read_response. cbn [status_code text].
    rewrite Z.eqb_refl, (splitlines_records sep records Hsep Hwf).
    rewrite (scan_records _ records Hwf).
    unfold suffix. destruct (find _ _) as [r|]; [|reflexivity].
    now destruct (len (snd r) <=? int_max_str_digits). }
  assert (Hfirst : (exists c, In (suffix, c) records) ->
            exists c, In (suffix, c) records
                      /\ find (fun r => str_eqb (fst r) suffix) records
                         = Some (suffix, c)).
  { intros [c Hc].
    destruct (find (fun r => str_eqb (fst r) suffix) records) as [[h c']|] eqn:Hf.
    - apply find_some in Hf as [Hin Heq]. cbn [fst] in Heq.
      apply str_eqb_eq in Heq. subst h. exists c'. now split.
    - exfalso. apply (find_none _ _ Hf) in Hc. cbn [fst] in Hc.
      now rewrite str_eqb_refl in Hc. }
  split; [exact Hresult|]. split; [|split].
  - intros Hsome Hshort. destruct (Hfirst Hsome) as (c & Hc & Hf).
    exists c. split; [assumption|]. rewrite Hresult, Hf. cbn [snd].
    specialize (Hshort c Hc). apply Z.leb_le in Hshort. now rewrite Hshort.
  - intros c Hc Huniq. destruct (Hfirst (ex_intro _ c Hc)) as (c' & Hc' & Hf).
    rewrite Hresult, Hf. cbn [snd]. now rewrite (Huniq c' Hc').
  - intros Hnone. rewrite Hresult.
    destruct (find (fun r => str_eqb (fst r) suffix) records) as [[h c]|] eqn:Hf;
      [|reflexivity].
    apply find_some in Hf as [Hin Heq]. cbn [fst] in Heq.
    apply str_eqb_eq in Heq. subst h. now destruct (Hnone c).
Qed.

Lemma lookup_in_well_formed_body_witness :
  check_pwned_api
    (fixed_response 200 (join [13; 10] (map render sample_records)))
    (lit "password")
  = Return (true, 9659365).
Proof.
  exact (proj1 (lookup_in_well_formed_body
                  (fixed_response 200 (join [13; 10] (map render sample_records)))
                  (lit "password") (lit "password") [13; 10] sample_records
                  eq_refl (or_intror eq_refl) eq_refl eq_refl)).
Defined.

(** The record of the documentation, first in the body, found for its own
    suffix whatever follows it. *)
Lemma documented_record_found (rest : str) :
  read_response (lit "0018A45C4D1DEF81644B54AB7F969B88D65")
    (mkResponse 200 (lit "0018A45C4D1DEF81644B54AB7F969B88D65:3" ++ 10 :: rest))
  = Return (true, 3).
Proof.
  unfold read_response. cbn [status_code text]. rewrite Z.eqb_refl.
  rewrite splitlines_lf by (vm_compute; repeat constructor).
  reflexivity.
Qed.

(** ** Records that cannot be read *)

Lemma scan_wrong_field_count suffix line rest :
  colons line <> 1%nat -> scan suffix (line :: rest) = Raise ValueError.
Proof.
  intros H. cbn [scan]. pose proof (split_length 58 line) as Hlen.
  fold (colons line) in Hlen.
  destruct (split 58 line) as [|h [|c [|x fields]]]; try reflexivity.
  simpl in Hlen. congruence.
Qed.

(** The scan raises nothing that the handler of line 108 catches. *)
Lemma scan_not_caught suffix lines handler :
  try_except_RequestException (scan suffix lines) handler = scan suffix lines.
Proof.
  induction lines as [|line lines IH]; cbn [scan]; [reflexivity|].
  destruct (split 58 line) as [|h [|c [|x fields]]]; try reflexivity.
  destruct (str_eqb h suffix); [|exact IH].
  unfold int. now destruct (long_from_string _).
Qed.

(** C2, the claim refuted: a body that is one line without a colon, and
    a body whose matching record has a count that is not a number, each
    make the call raise [ValueError]. *)
Lemma unreadable_record_raises :
  check_pwned_api (fixed_response 200 (lit "temporarily unavailable"))
    (lit "password") = Raise ValueError
  /\ check_pwned_api
       (fixed_response 200 (lit "1E4C9B93F3F0682250B6CF8331B7EE68FD8:many"))
       (lit "password") = Raise ValueError.
Proof. split; vm_compute; reflexivity. Qed.

(** C2, as amended: the records of a 200 response are read in order up to
    the first with the suffix of the hash.  A record read on the way that
    does not have exactly one colon makes the call raise [ValueError], as
    does a record with the suffix whose count [int] rejects; a record with
    one colon and another suffix is skipped whatever its count is. *)
Theorem unreadable_record_aborts_lookup
    (get : transport) (password : str) (encoded : bytes) (r : response)
    (before : list str) (bad : str) (rest : list str) :
  encode_utf8 password = Return encoded ->
  get (api_url ++ prefix_of (sha1_hash encoded)) 5 = Return r ->
  status_code r = 200 ->
  splitlines (text r) = before ++ bad :: rest ->
  Forall (fun l => exists h c,
            split 58 l = [h; c] /\ h <> suffix_of (sha1_hash encoded)) before ->
  (colons bad <> 1%nat -> check_pwned_api get password = Raise ValueError)
  /\ (forall c,
        split 58 bad = [suffix_of (sha1_hash encoded); c] ->
        int c = Raise ValueError ->
        check_pwned_api get password = Raise ValueError)
  /\ (forall h c,
        split 58 bad = [h; c] -> h <> suffix_of (sha1_hash encoded) ->
        check_pwned_api get password
        = scan (suffix_of (sha1_hash encoded)) rest).
Proof.
  intros Henc Hget Hstatus Hlines Hbefore.
  rewrite (check_pwned_api_unfold get password encoded Henc), Hget.
  cbn [bind]. unfold read_response.
  rewrite Hstatus, Z.eqb_refl, Hlines, (scan_skips _ _ _ Hbefore).
  rewrite scan_not_caught.
  repeat split.
  - intros Hcolons. now rewrite scan_wrong_field_count.
  - intros c Hsplit Hint. cbn [scan]. rewrite Hsplit, str_eqb_refl, Hint.
    reflexivity.
  - intros h c Hsplit Hne. cbn [scan]. rewrite Hsplit.
    apply str_eqb_neq in Hne. now rewrite Hne.
Qed.

Lemma unreadable_record_aborts_lookup_witness :
  check_pwned_api
    (fixed_response 200
       (lit "0018A45C4D1DEF81644B54AB7F969B88D65:n/a" ++ 10 :: lit "bad gateway"))
    (lit "password")
  = Raise ValueError.
Proof.
  refine (proj1 (unreadable_record_aborts_lookup
                   (fixed_response 200
                      (lit "0018A45C4D1DEF81644B54AB7F969B88D65:n/a"
                         ++ 10 :: lit "bad gateway"))
                   (lit "password") (lit "password")
                   (mkResponse 200
                      (lit "0018A45C4D1DEF81644B54AB7F969B88D65:n/a"
                         ++ 10 :: lit "bad gateway"))
                   [lit "0018A45C4D1DEF81644B54AB7F969B88D65:n/a"]
                   (lit "bad gateway") []
                   eq_refl eq_refl eq_refl eq_refl _) _).
  - constructor; [|constructor].
    exists (lit "0018A45C4D1DEF81644B54AB7F969B88D65"), (lit "n/a").
    split; [reflexivity|]. vm_compute. discriminate.
  - vm_compute. discriminate.
Defined.

(** ** The sign of the count *)

(** C7, the claim refuted: a matching record with a negative count is
    returned as found, with that count. *)
Lemma negative_count_found :
  check_pwned_api
    (fixed_response 200 (lit "1E4C9B93F3F0682250B6CF8331B7EE68FD8:-3"))
    (lit "password")
  = Return (true, -3)
  /\ ~ (forall get password found n,
          check_pwned_api get password = Return (found, n) ->
          n < 0 -> found = false).
Proof.
  assert (H : check_pwned_api
                (fixed_response 200 (lit "1E4C9B93F3F0682250B6CF8331B7EE68FD8:-3"))
                (lit "password") = Return (true, -3))
    by (vm_compute; reflexivity).
  split; [exact H|].
  intros Hclaim. specialize (Hclaim _ _ _ _ H).
  assert (Hfalse : true = false) by (apply Hclaim; lia). discriminate Hfalse.
Qed.

(** C7, as amended: when no response body contains a minus sign, a
    negative count is returned only with [found = False], and it is the
    -1 of the handler of line 109; this covers every password, every
    failure of the request and every status. *)
Theorem negative_count_means_not_found
    (get : transport) (password : str) (found : bool) (n : Z) :
  (forall url r, get url 5 = Return r -> ~ In 45 (text r)) ->
  check_pwned_api get password = Return (found, n) ->
  n < 0 ->
  found = false /\ n = -1.
Proof.
  intros Hbody Hresult Hn. unfold check_pwned_api in Hresult.
  destruct (encode_utf8 password) as [encoded|e];
    cbn [bind try_except_RequestException] in Hresult;
    [|destruct e; try discriminate; now injection Hresult as <- <-].
  destruct (get _ 5) as [r|e] eqn:Hget;
    cbn [bind try_except_RequestException] in Hresult.
  - exfalso. unfold read_response in Hresult.
    destruct (status_code r =? 200).
    + rewrite scan_not_caught in Hresult. destruct found.
      * apply scan_found in Hresult
          as (line & h & c & Hline & Hsplit & _ & Hint).
        apply (Hbody _ _ Hget).
        apply (in_splitlines _ line); [assumption|].
        apply (in_split 58 line c); [rewrite Hsplit; simpl; auto|].
        now apply (int_negative c n).
      * apply scan_not_found in Hresult. lia.
    + cbn [try_except_RequestException] in Hresult.
      injection Hresult as _ <-. lia.
  - destruct e; try discriminate. now injection Hresult as <- <-.
Qed.

Lemma negative_count_means_not_found_witness :
  check_pwned_api (failing ConnectionError) (lit "password")
  = Return (false, -1)
  /\ -1 < 0
  /\ (false = false /\ -1 = -1).
Proof.
  split; [reflexivity|]. split; [lia|].
  apply (negative_count_means_not_found (failing ConnectionError)
           (lit "password") false (-1)).
  - intros url r H. discriminate H.
  - reflexivity.
  - lia.
Defined.

(** * Examples and instances for calculate_password_strength *)

(** C1, the claim refuted: the fourteen-character password of the
    specification satisfies every premise and scores 8, not 10. *)
Lemma fourteen_characters_score_8 :
  let password := lit "Tr0ub4dor&3XQ!" in
  let r := calculate_password_strength lower_nonascii_sample password in
  12 <= len password
  /\ re_search class_upper password = true
  /\ re_search class_lower password = true
  /\ re_search class_digit password = true
  /\ re_search class_special password = true
  /\ in_common_passwords (lower lower_nonascii_sample password) = false
  /\ score r = 8
  /\ ~ (score r = 10 /\ strength r = Excellent).
Proof.
  cbv zeta. repeat split; try reflexivity.
  - vm_compute. discriminate.
  - intros [H _]. vm_compute in H. discriminate.
Qed.

Lemma strong_password_scores_8_witness :
  score (calculate_password_strength lower_nonascii_sample
           (lit "Tr0ub4dor&3XQ!")) = 8
  /\ strength (calculate_password_strength lower_nonascii_sample
                 (lit "Tr0ub4dor&3XQ!")) = Excellent.
Proof.
  apply (strong_password_scores_8 lower_nonascii_sample (lit "Tr0ub4dor&3XQ!")).
  - vm_compute. discriminate.
  - exists 84. split; [simpl; tauto|reflexivity].
  - exists 114. split; [simpl; tauto|reflexivity].
  - exists 48. split; [simpl; tauto|reflexivity].
  - exists 38. split; [simpl; tauto|reflexivity].
  - reflexivity.
Defined.

Lemma common_password_resets_score_witness :
  score (calculate_password_strength lower_nonascii_sample (lit "PassWord")) = 0
  /\ feedback (calculate_password_strength lower_nonascii_sample (lit "PassWord"))
     = [LengthGood; NoDigits; MixedCase; NoSpecial; InCommonList]
  /\ fst (four_criteria (lit "PassWord")) = 4.
Proof.
  destruct (common_password_resets_score lower_nonascii_sample (lit "PassWord")
              eq_refl) as (Hscore & Hfeedback & _).
  split; [exact Hscore|split; [exact Hfeedback|reflexivity]].
Defined.

Lemma strength_thresholds_witness :
  strength (calculate_password_strength lower_nonascii_sample
              (lit "Tr0ub4dor&3XQ!")) = Excellent
  /\ strength (calculate_password_strength lower_nonascii_sample
                 (lit "Password1")) = Good
  /\ strength (calculate_password_strength lower_nonascii_sample
                 (lit "passwords")) = Medium
  /\ strength (calculate_password_strength lower_nonascii_sample
                 (lit "123456")) = Weak.
Proof.
  split; [|split; [|split]].
  - apply (strength_thresholds lower_nonascii_sample (lit "Tr0ub4dor&3XQ!")).
    vm_compute. discriminate.
  - apply (strength_thresholds lower_nonascii_sample (lit "Password1")).
    vm_compute. split; [discriminate|reflexivity].
  - apply (strength_thresholds lower_nonascii_sample (lit "passwords")).
    vm_compute. split; [discriminate|reflexivity].
  - apply (strength_thresholds lower_nonascii_sample (lit "123456")).
    vm_compute. reflexivity.
Defined.

Lemma ascii_letters_unicode_digits_witness :
  (forall t, case_criterion cyrillic_password t = t)
  /\ ~ In SingleCase
        (feedback (calculate_password_strength lower_nonascii_sample
                     cyrillic_password))
  /\ In HasDigits
       (feedback (calculate_password_strength lower_nonascii_sample
                    (cyrillic_password ++ [0x663]))).
Proof.
  assert (Hnon_ascii : Forall (fun c => 127 < c) cyrillic_password)
    by (repeat constructor).
  assert (Hin : In 0x663 (cyrillic_password ++ [0x663])) by (simpl; tauto).
  assert (Hd : 127 < 0x663) by lia.
  split; [|split].
  - apply (proj1 (ascii_letters_unicode_digits lower_nonascii_sample
                    cyrillic_password) Hnon_ascii).
  - apply (proj1 (ascii_letters_unicode_digits lower_nonascii_sample
                    cyrillic_password) Hnon_ascii).
  - apply (proj2 (ascii_letters_unicode_digits lower_nonascii_sample
                    (cyrillic_password ++ [0x663])) 0x663 Hin Hd eq_refl).
Defined.


(** * Further properties of calculate_password_strength *)

Lemma lower_from_ascii lower_nonascii whole i s :
  forallb is_ascii s = true ->
  lower_from lower_nonascii whole i s = map ascii_lower s.
Proof.
  revert i. induction s as [|c s IH]; intros i H; [reflexivity|].
  cbn [forallb] in H. apply andb_true_iff in H as [Hc Hs].
  cbn [lower_from map]. rewrite Hc, (IH (S i) Hs). reflexivity.
Qed.

Lemma re_search_incl class p p' :
  (forall c, In c p -> In c p') ->
  re_search class p = true -> re_search class p' = true.
Proof.
  intros Hincl H. apply re_search_contains in H as (c & Hc & Hclass).
  apply re_search_contains. exists c. auto.
Qed.

Section Criteria_monotone.

Variables p p' : str.
Hypothesis Hincl : forall c, In c p -> In c p'.
Hypothesis Hlen : len p <= len p'.

Lemma length_criterion_monotone t t' :
  fst t <= fst t' ->
  fst (length_criterion p t) <= fst (length_criterion p' t').
Proof.
  intros Ht. unfold length_criterion, remark, award.
  destruct (len p >=? 12) eqn:H12, (len p >=? 8) eqn:H8,
    (len p' >=? 12) eqn:H12', (len p' >=? 8) eqn:H8'; cbn [fst]; lia.
Qed.

Lemma digit_criterion_monotone t t' :
  fst t <= fst t' ->
  fst (digit_criterion p t) <= fst (digit_criterion p' t').
Proof.
  intros Ht. unfold digit_criterion, remark, award.
  pose proof (re_search_incl class_digit p p' Hincl) as H.
  destruct (re_search class_digit p); [rewrite (H eq_refl)|
    destruct (re_search class_digit p')]; cbn [fst]; lia.
Qed.

Lemma case_criterion_monotone t t' :
  fst t <= fst t' ->
  fst (case_criterion p t) <= fst (case_criterion p' t').
Proof.
  intros Ht. unfold case_criterion, award.
  pose proof (re_search_incl class_lower p p' Hincl) as Hlo.
  pose proof (re_search_incl class_upper p p' Hincl) as Hup.
  pose proof (re_search_incl class_letter p p' Hincl) as Hle.
  destruct (re_search class_lower p); [rewrite (Hlo eq_refl)|];
    (destruct (re_search class_upper p); [rewrite (Hup eq_refl)|]);
    (destruct (re_search class_letter p); [rewrite (Hle eq_refl)|]);
    cbn [andb fst];
    repeat match goal with
           | |- context [re_search ?c p'] => destruct (re_search c p')
           end; cbn [andb fst]; lia.
Qed.

Lemma special_criterion_monotone t t' :
  fst t <= fst t' ->
  fst (special_criterion p t) <= fst (special_criterion p' t').
Proof.
  intros Ht. unfold special_criterion, remark, award.
  pose proof (re_search_incl class_special p p' Hincl) as H.
  destruct (re_search class_special p); [rewrite (H eq_refl)|
    destruct (re_search class_special p')]; cbn [fst]; lia.
Qed.

Lemma four_criteria_monotone :
  fst (four_criteria p) <= fst (four_criteria p').
Proof.
  unfold four_criteria.
  apply special_criterion_monotone, case_criterion_monotone,
    digit_criterion_monotone, length_criterion_monotone.
  reflexivity.
Qed.

End Criteria_monotone.

Lemma four_criteria_points password :
  fst (four_criteria password) = sum (map points (snd (four_criteria password))).
Proof. unfold_criteria. split_criteria; reflexivity. Qed.

Lemma in_award x n f t :
  In x (snd (award n f t)) <-> In x (snd t) \/ x = f.
Proof.
  unfold award. cbn [snd]. rewrite in_app_iff. cbn [In].
  intuition congruence.
Qed.

Lemma length_award n f t :
  List.length (snd (award n f t)) = S (List.length (snd t)).
Proof. unfold award. cbn [snd]. rewrite length_app. cbn. lia. Qed.

Lemma letter_of_either_case s :
  re_search class_letter s = false ->
  re_search class_lower s && re_search class_upper s = false.
Proof.
  intros H. destruct (re_search class_lower s) eqn:Hlo; [|reflexivity].
  apply re_search_contains in Hlo as (c & Hc & Hlo).
  assert (Hl : re_search class_letter s = true).
  { apply re_search_contains. exists c. split; [assumption|].
    unfold class_letter. unfold class_lower in Hlo. now rewrite Hlo. }
  congruence.
Qed.

(** The feedback of the four criteria: three or four findings, one of
    them about the case of letters exactly when there is a letter. *)
Lemma four_criteria_length password :
  (3 <= List.length (snd (four_criteria password)) <= 4)%nat.
Proof.
  unfold four_criteria, special_criterion, case_criterion, digit_criterion,
    length_criterion, remark.
  split_criteria; rewrite ?length_award; cbn; lia.
Qed.

Lemma four_criteria_case_finding password :
  In MixedCase (snd (four_criteria password))
  \/ In SingleCase (snd (four_criteria password))
  <-> re_search class_letter password = true.
Proof.
  unfold four_criteria, special_criterion, case_criterion, digit_criterion,
    length_criterion, remark.
  destruct (re_search class_letter password) eqn:Hle;
    [|rewrite (letter_of_either_case _ Hle)];
    split_criteria; rewrite ?in_award; cbn [snd In];
    (split; [intros H; try reflexivity; intuition discriminate
            |intros H; try discriminate H; tauto]).
Qed.

Lemma excellent_score lower_nonascii password :
  strength (calculate_password_strength lower_nonascii password) = Excellent
  <-> 8 <= score (calculate_password_strength lower_nonascii password).
Proof.
  unfold calculate_password_strength. cbn [score strength].
  set (s := fst (common_password_override lower_nonascii password
                   (four_criteria password))).
  destruct (s >=? 8) eqn:H8; [|destruct (s >=? 5) eqn:H5;
                               [|destruct (s >=? 3) eqn:H3]];
    cbn [fst]; split; intros H; try reflexivity; try discriminate H; lia.
Qed.

Lemma four_criteria_full password :
  8 <= fst (four_criteria password)
  <-> (len password >=? 12) = true
      /\ re_search class_digit password = true
      /\ re_search class_lower password = true
      /\ re_search class_upper password = true
      /\ re_search class_special password = true.
Proof.
  unfold_criteria.
  destruct (len password >=? 12); [|destruct (len password >=? 8)];
    destruct (re_search class_digit password),
      (re_search class_lower password),
      (re_search class_upper password),
      (re_search class_letter password),
      (re_search class_special password); cbn [andb fst snd];
    (split; [intros H; try (exfalso; lia); now repeat split
            |intros (Hl & Hd & Hlo & Hup & Hsp); try discriminate; lia]).
Qed.

Section More_strength.

Variable lower_nonascii : str -> nat -> str.

(** X1: the label is Excellent exactly when the password has 12 or more
    characters, a decimal digit, a letter of [a-z], a letter of [A-Z] and
    a special character, and its lower-case form is not a common
    password. *)
Theorem excellent_exactly_when (password : str) :
  strength (calculate_password_strength lower_nonascii password) = Excellent
  <-> (12 <= len password
       /\ contains class_digit password
       /\ contains class_lower password
       /\ contains class_upper password
       /\ contains class_special password
       /\ in_common_passwords (lower lower_nonascii password) = false).
Proof.
  rewrite excellent_score, <- !re_search_contains.
  unfold calculate_password_strength, common_password_override.
  cbn [score].
  destruct (in_common_passwords (lower lower_nonascii password)); cbn [fst].
  - split; [lia|intros (_ & _ & _ & _ & _ & H); discriminate H].
  - rewrite four_criteria_full, Z.geb_le. tauto.
Qed.

(** X2: the check against the common passwords ignores the case of ASCII
    letters: an ASCII password whose ASCII lower-case form is in the list
    has score 0 and the label Weak, in red, whatever its capitals. *)
Theorem ascii_case_variant_is_common (password : str) :
  forallb is_ascii password = true ->
  in_common_passwords (map ascii_lower password) = true ->
  let r := calculate_password_strength lower_nonascii password in
  score r = 0 /\ strength r = Weak /\ color r = Red
  /\ In InCommonList (feedback r).
Proof.
  intros Hascii Hcommon r. unfold r, calculate_password_strength,
    common_password_override, lower.
  rewrite (lower_from_ascii _ _ _ _ Hascii), Hcommon. cbn.
  repeat split. apply in_or_app. right. now left.
Qed.

(** X3: a password that contains every character of another and is at
    least as long scores at least as much, unless it is a common
    password. *)
Theorem more_characters_score_no_less (password longer : str) :
  (forall c, In c password -> In c longer) ->
  len password <= len longer ->
  in_common_passwords (lower lower_nonascii longer) = false ->
  score (calculate_password_strength lower_nonascii password)
  <= score (calculate_password_strength lower_nonascii longer).
Proof.
  intros Hincl Hlen Hcommon.
  unfold calculate_password_strength, common_password_override.
  rewrite Hcommon. cbn [score].
  pose proof (four_criteria_monotone password longer Hincl Hlen).
  pose proof (four_criteria_bounds longer).
  destruct (in_common_passwords (lower lower_nonascii password));
    cbn [fst]; lia.
Qed.

(** X4: unless the password is a common password, the score is the sum of
    the points of the findings in the feedback, where the finding of
    letters in one case only, although marked as failed, counts one
    point. *)
Theorem score_is_sum_of_points (password : str) :
  let r := calculate_password_strength lower_nonascii password in
  score r = (if in_common_passwords (lower lower_nonascii password)
             then 0 else sum (map points (feedback r)))
  /\ points SingleCase = 1 /\ passes SingleCase = false.
Proof.
  cbv zeta. unfold calculate_password_strength, common_password_override.
  destruct (in_common_passwords _); cbn [score feedback fst snd].
  - repeat split.
  - repeat split. apply four_criteria_points.
Qed.

(** X5: the feedback has three to five findings, and one of them is about
    the case of letters exactly when the password has a letter of
    [a-zA-Z]. *)
Theorem feedback_shape (password : str) :
  let r := calculate_password_strength lower_nonascii password in
  (3 <= List.length (feedback r) <= 5)%nat
  /\ (In MixedCase (feedback r) \/ In SingleCase (feedback r)
      <-> contains class_letter password).
Proof.
  cbv zeta. rewrite <- re_search_contains.
  unfold calculate_password_strength, common_password_override.
  cbn [feedback].
  pose proof (four_criteria_length password) as Hlen.
  pose proof (four_criteria_case_finding password) as Hcase.
  destruct (in_common_passwords _); cbn [snd].
  - rewrite length_app, !in_app_iff. cbn [List.length In]. split; [lia|].
    rewrite <- Hcase. intuition discriminate.
  - split; [lia|exact Hcase].
Qed.

End More_strength.

Lemma ascii_case_variant_is_common_witness :
  score (calculate_password_strength lower_nonascii_sample (lit "QWERTY")) = 0
  /\ strength (calculate_password_strength lower_nonascii_sample
                 (lit "QWERTY")) = Weak.
Proof.
  destruct (ascii_case_variant_is_common lower_nonascii_sample (lit "QWERTY")
              eq_refl eq_refl) as (Hscore & Hweak & _).
  split; [exact Hscore|exact Hweak].
Defined.

Lemma more_characters_score_no_less_witness :
  score (calculate_password_strength lower_nonascii_sample (lit "passwor"))
  <= score (calculate_password_strength lower_nonascii_sample
              (lit "passwor1!")).
Proof.
  apply (more_characters_score_no_less lower_nonascii_sample
           (lit "passwor") (lit "passwor1!")).
  - intros c Hc. apply (in_or_app (lit "passwor") (lit "1!")). now left.
  - vm_compute. discriminate.
  - reflexivity.
Defined.


(** * Properties of generate_recommendations *)

(** X6: the list has two to five entries, no entry twice, and its last
    two entries are the two general ones. *)
Theorem recommendations_shape (a : analysis) (is_pwned : bool) (pwned_count : Z) :
  let recs := generate_recommendations a is_pwned pwned_count in
  (2 <= List.length recs <= 5)%nat
  /\ NoDup recs
  /\ exists front, recs = front ++ [DoNotReuse; UsePasswordManager].
Proof.
  cbv zeta. unfold generate_recommendations.
  destruct (is_pwned && (pwned_count >? 0)), (length a <? 8),
    (score a <? 5); cbn [app List.length];
    (split; [lia|]);
    (split; [repeat constructor; cbn [In]; intuition discriminate|]).
  - now exists [UrgentBreach pwned_count;
                IncreaseLength (length a); CombineClasses].
  - now exists [UrgentBreach pwned_count; IncreaseLength (length a)].
  - now exists [UrgentBreach pwned_count; CombineClasses].
  - now exists [UrgentBreach pwned_count].
  - now exists [IncreaseLength (length a); CombineClasses].
  - now exists [IncreaseLength (length a)].
  - now exists [CombineClasses].
  - now exists [].
Qed.

(** X7: the urgent warning is in the list exactly when the password was
    found with a count above zero; it then carries that count and is the
    first entry. *)
Theorem urgent_warning_exactly_when
    (a : analysis) (is_pwned : bool) (pwned_count c : Z) :
  let recs := generate_recommendations a is_pwned pwned_count in
  (In (UrgentBreach c) recs
   <-> is_pwned = true /\ 0 < pwned_count /\ c = pwned_count)
  /\ (In (UrgentBreach c) recs -> hd_error recs = Some (UrgentBreach c)).
Proof.
  cbv zeta. unfold generate_recommendations.
  destruct is_pwned; cbn [andb];
    [destruct (pwned_count >? 0) eqn:Hpos|];
    destruct (length a <? 8), (score a <? 5); cbn [app In hd_error];
    (split; [split; [intros H|intros (H1 & H2 & H3)]|intros H]);
    try discriminate; try lia;
    repeat match goal with
           | H : _ \/ _ |- _ => destruct H as [H|H]
           | H : UrgentBreach _ = UrgentBreach _ |- _ => injection H as H
           | H : False |- _ => destruct H
           | H : _ = _ |- _ => discriminate H
           end; subst; try (repeat split; lia); try reflexivity; auto.
Qed.


Lemma label_low lower_nonascii password :
  let r := calculate_password_strength lower_nonascii password in
  (score r <? 5) = true <-> strength r = Medium \/ strength r = Weak.
Proof.
  cbv zeta. unfold calculate_password_strength. cbn [score strength].
  set (s := fst (common_password_override lower_nonascii password
                   (four_criteria password))).
  destruct (s >=? 8) eqn:H8; [|destruct (s >=? 5) eqn:H5;
                               [|destruct (s >=? 3) eqn:H3]];
    cbn [fst]; split; intros H; try (destruct H as [H|H]; discriminate H);
    try lia; auto.
Qed.

(** X8: for the analysis of a password, the advice to combine character
    classes is given exactly when the label is Medium or Weak, and the
    advice to lengthen exactly when the password has fewer than 8
    characters; it then names the length of the password. *)
Theorem advice_follows_analysis
    (lower_nonascii : str -> nat -> str) (password : str)
    (is_pwned : bool) (pwned_count : Z) :
  let r := calculate_password_strength lower_nonascii password in
  let recs := generate_recommendations r is_pwned pwned_count in
  (In CombineClasses recs <-> strength r = Medium \/ strength r = Weak)
  /\ (forall k, In (IncreaseLength k) recs
                <-> k = len password /\ len password < 8).
Proof.
  cbv zeta. rewrite <- label_low. unfold generate_recommendations.
  change (length (calculate_password_strength lower_nonascii password))
    with (len password).
  destruct (is_pwned && (pwned_count >? 0)), (len password <? 8) eqn:Hlen,
    (score _ <? 5); cbn [app In];
    (split; [split; intros H; try reflexivity; try discriminate H;
             try tauto; intuition discriminate
            |intros k; split;
             [intros H;
              repeat match goal with
                     | H : _ \/ _ |- _ => destruct H as [H|H]
                     | H : IncreaseLength _ = IncreaseLength _ |- _ =>
                         injection H as H
                     | H : False |- _ => destruct H
                     | H : _ = _ |- _ => discriminate H
                     end; split; lia
             |intros [-> Hk]; try lia; auto]]).
Qed.

(** * Further properties of check_pwned_api *)

Lemma encode_utf8_raises password e :
  encode_utf8 password = Raise e ->
  e = UnicodeEncodeError /\ exists c, In c password /\ is_surrogate c = true.
Proof.
  induction password as [|c s IH]; cbn [encode_utf8]; [discriminate|].
  destruct (is_surrogate c) eqn:Hc.
  - intros [= <-]. split; [reflexivity|]. exists c. split; [now left|assumption].
  - destruct (encode_utf8 s) as [b|e'] eqn:Hs; cbn [bind]; [discriminate|].
    intros [= <-]. destruct (IH eq_refl) as (-> & c' & Hin & Hc').
    split; [reflexivity|]. exists c'. split; [now right|assumption].
Qed.

Lemma scan_raises suffix lines e :
  scan suffix lines = Raise e -> e = ValueError.
Proof.
  induction lines as [|line lines IH]; cbn [scan]; [discriminate|].
  destruct (split 58 line) as [|h [|c [|x fields]]];
    try (intros [= <-]; reflexivity).
  destruct (str_eqb h suffix); [|exact IH].
  unfold int. destruct (long_from_string _); cbn [bind];
    [discriminate|intros [= <-]; reflexivity].
Qed.

(** X9: an exception leaves the call in three ways only: a
    [UnicodeEncodeError] for a password with a lone surrogate, an exception
    of the request that is not a [RequestException], or a [ValueError]
    while the body of a 200 response is read.  A [RequestException] never
    leaves it. *)
Theorem escaping_exceptions (get : transport) (password : str) (e : exn) :
  check_pwned_api get password = Raise e ->
  (e = UnicodeEncodeError
   /\ exists c, In c password /\ is_surrogate c = true)
  \/ exists url,
       requested_url password = Return url
       /\ ((get url 5 = Raise e /\ forall k, e <> RequestException k)
           \/ (e = ValueError
               /\ exists r, get url 5 = Return r /\ status_code r = 200)).
Proof.
  unfold check_pwned_api, requested_url.
  destruct (encode_utf8 password) as [encoded|e0] eqn:Henc;
    cbn [bind try_except_RequestException].
  - intros H. right. exists (api_url ++ prefix_of (sha1_hash encoded)).
    split; [reflexivity|].
    destruct (get _ 5) as [r|e1] eqn:Hget;
      cbn [bind try_except_RequestException] in H.
    + right. unfold read_response in H.
      destruct (status_code r =? 200) eqn:Hs; [|discriminate H].
      rewrite scan_not_caught in H. apply scan_raises in H.
      split; [assumption|]. exists r. split; [reflexivity|].
      now apply Z.eqb_eq.
    + left. destruct e1; try discriminate H; injection H as <-;
        (split; [reflexivity|intros k; discriminate]).
  - intros H. left. destruct (encode_utf8_raises _ _ Henc) as [-> Hs].
    injection H as <-. split; [reflexivity|assumption].
Qed.

(** X10: the call returns found only when the response has status 200
    and its body has a line of two fields, the suffix of the hash and a
    count that [int] reads as the number returned. *)
Theorem found_only_with_a_matching_record
    (get : transport) (password : str) (n : Z) :
  check_pwned_api get password = Return (true, n) ->
  exists encoded r line count,
    encode_utf8 password = Return encoded
    /\ get (api_url ++ prefix_of (sha1_hash encoded)) 5 = Return r
    /\ status_code r = 200
    /\ In line (splitlines (text r))
    /\ split 58 line = [suffix_of (sha1_hash encoded); count]
    /\ int count = Return n.
Proof.
  unfold check_pwned_api.
  destruct (encode_utf8 password) as [encoded|e0] eqn:Henc;
    cbn [bind try_except_RequestException];
    [|destruct e0; discriminate].
  destruct (get _ 5) as [r|e1] eqn:Hget;
    cbn [bind try_except_RequestException];
    [|destruct e1; discriminate].
  unfold read_response.
  destruct (status_code r =? 200) eqn:Hs; [|discriminate].
  rewrite scan_not_caught. intros H.
  apply scan_found in H as (line & h & c & Hline & Hsplit & -> & Hint).
  exists encoded, r, line, c. repeat split; auto. now apply Z.eqb_eq.
Qed.

(** X11: the first record with the suffix decides: its count is
    returned, and what follows it in the body is not read, be it another
    record with the suffix or a line that is no record. *)
Theorem first_matching_record_wins
    (get : transport) (password : str) (encoded : bytes) (r : response)
    (before : list str) (hit count : str) (rest : list str) (n : Z) :
  encode_utf8 password = Return encoded ->
  get (api_url ++ prefix_of (sha1_hash encoded)) 5 = Return r ->
  status_code r = 200 ->
  splitlines (text r) = before ++ hit :: rest ->
  Forall (fun l => exists h c,
            split 58 l = [h; c] /\ h <> suffix_of (sha1_hash encoded)) before ->
  split 58 hit = [suffix_of (sha1_hash encoded); count] ->
  int count = Return n ->
  check_pwned_api get password = Return (true, n).
Proof.
  intros Henc Hget Hstatus Hlines Hbefore Hhit Hint.
  rewrite (check_pwned_api_unfold get password encoded Henc), Hget.
  cbn [bind]. unfold read_response.
  rewrite Hstatus, Z.eqb_refl, Hlines, (scan_skips _ _ _ Hbefore).
  cbn [scan]. rewrite Hhit, str_eqb_refl, Hint. reflexivity.
Qed.

Lemma first_matching_record_wins_witness :
  check_pwned_api
    (fixed_response 200
       (lit "0018A45C4D1DEF81644B54AB7F969B88D65:3" ++ 10
          :: lit "1E4C9B93F3F0682250B6CF8331B7EE68FD8:5" ++ 10
          :: lit "not a record" ++ 10
          :: lit "1E4C9B93F3F0682250B6CF8331B7EE68FD8:7"))
    (lit "password")
  = Return (true, 5).
Proof.
  set (body := lit "0018A45C4D1DEF81644B54AB7F969B88D65:3" ++ 10
          :: lit "1E4C9B93F3F0682250B6CF8331B7EE68FD8:5" ++ 10
          :: lit "not a record" ++ 10
          :: lit "1E4C9B93F3F0682250B6CF8331B7EE68FD8:7").
  refine (first_matching_record_wins (fixed_response 200 body)
            (lit "password") (lit "password") (mkResponse 200 body)
            [lit "0018A45C4D1DEF81644B54AB7F969B88D65:3"]
            (lit "1E4C9B93F3F0682250B6CF8331B7EE68FD8:5") (lit "5")
            [lit "not a record"; lit "1E4C9B93F3F0682250B6CF8331B7EE68FD8:7"]
            5 eq_refl eq_refl eq_refl eq_refl _ eq_refl eq_refl).
  constructor; [|constructor].
  exists (lit "0018A45C4D1DEF81644B54AB7F969B88D65"), (lit "3").
  split; [reflexivity|]. vm_compute. discriminate.
Defined.

Lemma escaping_exceptions_witness :
  (ValueError = UnicodeEncodeError
   /\ exists c, In c (lit "password") /\ is_surrogate c = true)
  \/ exists url,
       requested_url (lit "password") = Return url
       /\ ((fixed_response 200 (lit "oops") url 5 = Raise ValueError
            /\ forall k, ValueError <> RequestException k)
           \/ (ValueError = ValueError
               /\ exists r, fixed_response 200 (lit "oops") url 5 = Return r
                            /\ status_code r = 200)).
Proof.
  apply (escaping_exceptions (fixed_response 200 (lit "oops")) (lit "password")).
  vm_compute. reflexivity.
Defined.

Lemma found_only_with_a_matching_record_witness :
  exists encoded r line count,
    encode_utf8 (lit "password") = Return encoded
    /\ fixed_response 200 (lit "1E4C9B93F3F0682250B6CF8331B7EE68FD8:0")
         (api_url ++ prefix_of (sha1_hash encoded)) 5 = Return r
    /\ status_code r = 200
    /\ In line (splitlines (text r))
    /\ split 58 line = [suffix_of (sha1_hash encoded); count]
    /\ int count = Return 0.
Proof.
  apply (found_only_with_a_matching_record
           (fixed_response 200 (lit "1E4C9B93F3F0682250B6CF8331B7EE68FD8:0"))
           (lit "password") 0).
  vm_compute. reflexivity.
Defined.

(** * Properties of check_password *)

Lemma strength_lines_app a b :
  strength_lines (a ++ b) = strength_lines a ++ strength_lines b.
Proof. apply filter_app. Qed.

Lemma breach_lines_app a b :
  breach_lines (a ++ b) = breach_lines a ++ breach_lines b.
Proof. apply filter_app. Qed.

Lemma recommendation_lines_app a b :
  recommendation_lines (a ++ b)
  = recommendation_lines a ++ recommendation_lines b.
Proof. apply flat_map_app. Qed.

Lemma lines_of_feedback fs :
  strength_lines (map FeedbackLine fs) = map FeedbackLine fs
  /\ breach_lines (map FeedbackLine fs) = []
  /\ recommendation_lines (map FeedbackLine fs) = [].
Proof.
  induction fs as [|f fs (IH1 & IH2 & IH3)]; [repeat split|].
  cbn. unfold strength_lines, breach_lines, recommendation_lines in *.
  now rewrite IH1, IH2, IH3.
Qed.

Lemma lines_of_recommendations (irs : list (Z * recommendation)) :
  let lines := map (fun ir => RecommendationLine (fst ir) (snd ir)) irs in
  strength_lines lines = [] /\ breach_lines lines = []
  /\ recommendation_lines lines = irs.
Proof.
  induction irs as [|[i r] irs (IH1 & IH2 & IH3)]; [repeat split|].
  cbn. unfold strength_lines, breach_lines, recommendation_lines in *.
  cbn in *. now rewrite IH1, IH2, IH3.
Qed.

Lemma enumerate_fst {A} (xs : list A) start :
  map fst (enumerate start xs)
  = map (fun k => start + Z.of_nat k) (seq 0 (List.length xs)).
Proof.
  revert start. induction xs as [|x xs IH]; intros start; [reflexivity|].
  cbn [enumerate map List.length seq]. rewrite IH, <- seq_shift, map_map.
  cbn [fst Z.of_nat]. f_equal; [lia|]. apply map_ext. intros k. lia.
Qed.

Lemma enumerate_snd {A} (xs : list A) start :
  map snd (enumerate start xs) = xs.
Proof.
  revert start. induction xs as [|x xs IH]; intros start; [reflexivity|].
  cbn [enumerate map]. now rewrite IH.
Qed.

Ltac read_lines :=
  unfold check_password;
  repeat match goal with
         | H : check_pwned_api _ _ = _ |- _ => rewrite H
         end;
  cbn [fst snd];
  rewrite ?strength_lines_app, ?breach_lines_app, ?recommendation_lines_app,
    ?(proj1 (lines_of_feedback _)),
    ?(proj1 (proj2 (lines_of_feedback _))),
    ?(proj2 (proj2 (lines_of_feedback _))),
    ?(proj1 (lines_of_recommendations _)),
    ?(proj1 (proj2 (lines_of_recommendations _))),
    ?(proj2 (proj2 (lines_of_recommendations _))), ?Z.eqb_refl;
  change (0 =? -1) with false.

Lemma urgent_needs_found a is_pwned pwned_count c :
  In (UrgentBreach c) (generate_recommendations a is_pwned pwned_count) ->
  is_pwned = true /\ 0 < pwned_count.
Proof.
  unfold generate_recommendations.
  destruct is_pwned; cbn [andb];
    [destruct (pwned_count >? 0) eqn:Hpos|];
    destruct (length a <? 8), (score a <? 5); cbn [app In];
    intros H;
    repeat match goal with
           | H : _ \/ _ |- _ => destruct H as [H|H]
           | H : False |- _ => destruct H
           | H : _ = _ |- _ => discriminate H
           end; split; (reflexivity || lia).
Qed.

Lemma check_password_strength_lines lower_nonascii get password :
  let a := calculate_password_strength lower_nonascii password in
  strength_lines (fst (check_password lower_nonascii get password))
  = ScoreLine (color a) (score a) 10 (strength a)
    :: map FeedbackLine (feedback a).
Proof.
  cbv zeta. unfold check_password.
  destruct (check_pwned_api get password) as [[[|] n]|e]; cbn [fst];
    rewrite ?strength_lines_app, ?(proj1 (lines_of_feedback _)),
      ?(proj1 (lines_of_recommendations _));
    try destruct (n =? -1); cbn; now rewrite ?app_nil_r.
Qed.

Section Report.

Variable lower_nonascii : str -> nat -> str.

(** X15: the score line and the feedback lines of a report are those of
    the analysis of the password, whatever the lookup returns or raises. *)
Theorem strength_report_ignores_lookup (get : transport) (password : str) :
  let a := calculate_password_strength lower_nonascii password in
  strength_lines (fst (check_password lower_nonascii get password))
  = ScoreLine (color a) (score a) 10 (strength a)
    :: map FeedbackLine (feedback a).
Proof.
  cbv zeta. unfold check_password.
  destruct (check_pwned_api get password) as [[is_pwned pwned_count]|e];
    cbn [fst]; rewrite ?strength_lines_app, ?(proj1 (lines_of_feedback _)),
                 ?(proj1 (lines_of_recommendations _)).
  - destruct is_pwned; [|destruct (pwned_count =? -1)]; cbn;
      now rewrite ?app_nil_r.
  - cbn. now rewrite ?app_nil_r.
Qed.


(** X16: when the lookup returns, the call returns too, and the
    recommendations printed are those of [generate_recommendations] for
    the analysis and the result of the lookup, in order, numbered from 1. *)
Theorem recommendations_are_numbered
    (get : transport) (password : str) (is_pwned : bool) (pwned_count : Z) :
  check_pwned_api get password = Return (is_pwned, pwned_count) ->
  let a := calculate_password_strength lower_nonascii password in
  let recs := generate_recommendations a is_pwned pwned_count in
  let lines :=
    recommendation_lines (fst (check_password lower_nonascii get password)) in
  snd (check_password lower_nonascii get password) = Return tt
  /\ map snd lines = recs
  /\ map fst lines = map (fun k => 1 + Z.of_nat k) (seq 0 (List.length recs)).
Proof.
  intros H. cbv zeta. read_lines.
  cbn [recommendation_lines flat_map app].
  destruct is_pwned; try destruct (pwned_count =? -1); cbn [app];
    rewrite ?app_nil_r, ?enumerate_snd, ?enumerate_fst; repeat split.
Qed.

(** X12: when the request raises a [RequestException], the report has
    one line about the lookup, the one that says the service is
    unavailable, and no urgent warning among the recommendations. *)
Theorem unreachable_is_reported_as_unavailable
    (get : transport) (password url : str) (e : request_error) :
  requested_url password = Return url ->
  get url 5 = Raise (RequestException e) ->
  let report := check_password lower_nonascii get password in
  snd report = Return tt
  /\ breach_lines (fst report) = [ApiUnavailable]
  /\ forall i c, ~ In (i, UrgentBreach c) (recommendation_lines (fst report)).
Proof.
  intros Hurl Hget.
  apply requested_url_inv in Hurl as (encoded & Henc & ->).
  assert (H : check_pwned_api get password = Return (false, -1)).
  { rewrite (check_pwned_api_unfold get password encoded Henc).
    now rewrite Hget. }
  cbv zeta. read_lines. cbn [breach_lines recommendation_lines filter flat_map app Z.eqb].
  rewrite ?app_nil_r. repeat split.
  intros i c Hin.
  apply (in_map snd) in Hin. rewrite enumerate_snd in Hin. cbn [snd] in Hin.
  apply urgent_needs_found in Hin. destruct Hin as [Hfound _].
  discriminate Hfound.
Qed.

(** X13: when the response has a status other than 200, the report says
    that the password was not found in known breaches. *)
Theorem error_status_is_reported_as_not_found
    (get : transport) (password url : str) (r : response) :
  requested_url password = Return url ->
  get url 5 = Return r ->
  status_code r <> 200 ->
  let report := check_password lower_nonascii get password in
  snd report = Return tt
  /\ breach_lines (fst report) = [NotInBreaches].
Proof.
  intros Hurl Hget Hstatus.
  apply requested_url_inv in Hurl as (encoded & Henc & ->).
  assert (H : check_pwned_api get password = Return (false, 0)).
  { rewrite (check_pwned_api_unfold get password encoded Henc), Hget.
    cbn [bind]. unfold read_response.
    apply Z.eqb_neq in Hstatus. now rewrite Hstatus. }
  cbv zeta. read_lines. cbn [breach_lines recommendation_lines filter flat_map app Z.eqb].
  rewrite ?app_nil_r. repeat split.
Qed.

(** X14: when the lookup raises, [check_password] raises the same
    exception after the line that announces the lookup: no line about its
    outcome and no recommendation is printed. *)
Theorem lookup_exception_cuts_report
    (get : transport) (password : str) (e : exn) :
  check_pwned_api get password = Raise e ->
  let report := check_password lower_nonascii get password in
  snd report = Raise e
  /\ breach_lines (fst report) = []
  /\ recommendation_lines (fst report) = []
  /\ last (fst report) (Fixed 0) = Fixed 146.
Proof.
  intros H. cbv zeta. unfold check_password. rewrite H. cbn [fst snd].
  split; [reflexivity|]. split; [|split].
  - rewrite !breach_lines_app, (proj1 (proj2 (lines_of_feedback _))).
    reflexivity.
  - rewrite !recommendation_lines_app, (proj2 (proj2 (lines_of_feedback _))).
    reflexivity.
  - rewrite app_assoc. apply last_last.
Qed.

(** X17: when the lookup returns found with a count of zero or less, the
    report says found with that count, and gives no urgent warning. *)
Theorem found_without_warning
    (get : transport) (password : str) (pwned_count : Z) :
  check_pwned_api get password = Return (true, pwned_count) ->
  pwned_count <= 0 ->
  let report := check_password lower_nonascii get password in
  breach_lines (fst report) = [FoundInBreaches pwned_count]
  /\ forall i c, ~ In (i, UrgentBreach c) (recommendation_lines (fst report)).
Proof.
  intros H Hcount. cbv zeta. read_lines.
  cbn [breach_lines recommendation_lines filter flat_map app Z.eqb].
  rewrite ?app_nil_r. split; [reflexivity|].
  intros i c Hin.
  apply (in_map snd) in Hin. rewrite enumerate_snd in Hin. cbn [snd] in Hin.
  apply urgent_needs_found in Hin. lia.
Qed.

End Report.

(** * Properties of main *)

Lemma increase_length_in a is_pwned pwned_count k :
  In (IncreaseLength k) (generate_recommendations a is_pwned pwned_count) ->
  k = length a /\ length a < 8.
Proof.
  unfold generate_recommendations.
  destruct (is_pwned && (pwned_count >? 0)),
    (length a <? 8) eqn:Hlen, (score a <? 5); cbn [app In];
    intros H;
    repeat match goal with
           | H : _ \/ _ |- _ => destruct H as [H|H]
           | H : IncreaseLength _ = IncreaseLength _ |- _ => injection H as H
           | H : False |- _ => destruct H
           | H : _ = _ |- _ => discriminate H
           end; split; lia.
Qed.

Lemma in_recommendation_lines out i r :
  In (RecommendationLine i r) out <-> In (i, r) (recommendation_lines out).
Proof.
  unfold recommendation_lines. rewrite in_flat_map. split.
  - intros H. exists (RecommendationLine i r). split; [assumption|now left].
  - intros (p & Hp & Hin). destruct p; cbn in Hin; try contradiction.
    destruct Hin as [[= <- <-]|[]]. assumption.
Qed.

Section Session.

Variable lower_nonascii : str -> nat -> str.
Variable get : transport.

Lemma check_password_recommendations password i r :
  In (RecommendationLine i r)
     (fst (check_password lower_nonascii get password)) ->
  exists is_pwned pwned_count,
    In r (generate_recommendations
            (calculate_password_strength lower_nonascii password)
            is_pwned pwned_count).
Proof.
  rewrite in_recommendation_lines. unfold check_password.
  destruct (check_pwned_api get password) as [[b n]|e]; cbn [fst];
    rewrite ?recommendation_lines_app,
      ?(proj2 (proj2 (lines_of_feedback _))),
      ?(proj2 (proj2 (lines_of_recommendations _))).
  - intros H. exists b, n.
    assert (Hin : In (i, r)
                    (enumerate 1
                       (generate_recommendations
                          (calculate_password_strength lower_nonascii password)
                          b n))).
    { destruct b; try destruct (n =? -1);
        cbn [recommendation_lines flat_map app] in H;
        rewrite ?app_nil_r in H; exact H. }
    apply (in_map snd) in Hin. now rewrite enumerate_snd in Hin.
  - cbn. intros [].
Qed.

Lemma main_loop_in inputs x :
  (forall k, x <> Fixed k) -> x <> Prompt -> x <> Goodbye ->
  x <> EmptyRejected -> x <> Terminated -> (forall e, x <> ErrorLine e) ->
  In x (fst (main_loop lower_nonascii get inputs)) ->
  exists line,
    In (Typed line) inputs /\ line <> []
    /\ In x (fst (check_password lower_nonascii get line)).
Proof.
  intros Hfixed Hprompt Hbye Hempty Hterm Herr.
  assert (Hchrome : forall k, ~ In x [Fixed k; Prompt]).
  { intros k [H|[H|[]]]; [now apply (Hfixed k)|now apply Hprompt]. }
  induction inputs as [|ev rest IH]; cbn [main_loop].
  - intros H. now apply Hchrome in H.
  - destruct ev as [line| |].
    + destruct (str_eqb _ _).
      * cbn [fst]. intros [H|[H|[H|[]]]]; exfalso;
          [now apply (Hfixed 190)|now apply Hprompt|now apply Hbye].
      * destruct (List.length line =? 0)%nat eqn:Hlen.
        -- destruct (main_loop lower_nonascii get rest) as [out e].
           cbn [fst app In] in *.
           intros [H|[H|[H|H]]];
             [exfalso; now apply (Hfixed 190)|exfalso; now apply Hprompt
             |exfalso; now apply Hempty|].
           destruct (IH H) as (l & Hl & Hrest). exists l. split; [now right|auto].
        -- destruct (check_password lower_nonascii get line)
             as [report result] eqn:Hreport.
           destruct (main_loop lower_nonascii get rest) as [out e].
           cbn [fst] in *. rewrite !in_app_iff.
           intros [H|[H|[H|H]]].
           ++ now apply Hchrome in H.
           ++ exists line. split; [now left|].
              split; [intros ->; discriminate Hlen|].
              rewrite Hreport. exact H.
           ++ exfalso. destruct result as [u|e0]; cbn [In] in H;
                repeat (destruct H as [H|H];
                        [solve [eapply Hfixed; eauto | eapply Herr; eauto]|]);
                exact H.
           ++ destruct (IH H) as (l & Hl & Hrest). exists l.
              split; [now right|auto].
    + cbn [fst]. intros [H|[H|[H|[]]]]; exfalso;
        [now apply (Hfixed 190)|now apply Hprompt|now apply Hterm].
    + destruct (main_loop lower_nonascii get rest) as [out e].
      cbn [fst app In] in *.
      intros [H|[H|[H|[H|H]]]];
        [exfalso; now apply (Hfixed 190)|exfalso; now apply Hprompt
        |exfalso; now apply (Herr EOFError)|exfalso; now apply (Hfixed 218)|].
      destruct (IH H) as (l & Hl & Hrest). exists l. split; [now right|auto].
Qed.

Lemma main_fst inputs :
  fst (main lower_nonascii get inputs)
  = [Fixed 176; Fixed 177; Fixed 178; Fixed 179; Fixed 180; Fixed 181;
     Fixed 182; Fixed 183; Fixed 184]
    ++ fst (main_loop lower_nonascii get inputs).
Proof. unfold main. now destruct (main_loop lower_nonascii get inputs). Qed.

Lemma main_snd inputs :
  snd (main lower_nonascii get inputs)
  = snd (main_loop lower_nonascii get inputs).
Proof. unfold main. now destruct (main_loop lower_nonascii get inputs). Qed.

Lemma main_in inputs x :
  (forall k, x <> Fixed k) -> x <> Prompt -> x <> Goodbye ->
  x <> EmptyRejected -> x <> Terminated -> (forall e, x <> ErrorLine e) ->
  In x (fst (main lower_nonascii get inputs)) ->
  exists line,
    In (Typed line) inputs /\ line <> []
    /\ In x (fst (check_password lower_nonascii get line)).
Proof.
  intros Hfixed Hprompt Hbye Hempty Hterm Herr. rewrite main_fst, in_app_iff.
  intros [H|H]; [|now apply main_loop_in].
  exfalso. cbn [In] in H.
  repeat (destruct H as [H|H]; [now apply (Hfixed _ (eq_sym H))|]). exact H.
Qed.

Lemma loop_ending inputs :
  snd (main_loop lower_nonascii get inputs) = AwaitingInput
  <-> existsb (fun ev => is_exit lower_nonascii ev || is_ctrl_c ev) inputs
      = false.
Proof.
  induction inputs as [|ev rest IH]; cbn [main_loop existsb]; [tauto|].
  destruct ev as [line| |]; cbn [is_exit is_ctrl_c orb].
  - destruct (str_eqb _ _); cbn [orb snd]; [split; discriminate|].
    destruct (List.length line =? 0)%nat.
    + destruct (main_loop lower_nonascii get rest) as [out e]. exact IH.
    + destruct (check_password lower_nonascii get line) as [report result].
      destruct (main_loop lower_nonascii get rest) as [out e]. exact IH.
  - cbn [orb snd]. split; discriminate.
  - destruct (main_loop lower_nonascii get rest) as [out e]. exact IH.
Qed.


(** X19: after a line that lower-cases to [exit], or an interrupt, no
    further input is read: what follows changes neither the output nor
    the ending. *)
Theorem nothing_is_read_after_the_end
    (before : list input_event) (ev : input_event) (rest : list input_event) :
  is_exit lower_nonascii ev || is_ctrl_c ev = true ->
  main lower_nonascii get (before ++ ev :: rest)
  = main lower_nonascii get (before ++ [ev])
  /\ snd (main lower_nonascii get (before ++ ev :: rest)) <> AwaitingInput.
Proof.
  intros Hend.
  assert (Hloop : main_loop lower_nonascii get (before ++ ev :: rest)
                  = main_loop lower_nonascii get (before ++ [ev])).
  { induction before as [|b before IH]; cbn [app main_loop].
    - destruct ev as [line| |]; cbn [is_exit is_ctrl_c orb] in Hend;
        [|reflexivity|discriminate Hend].
      rewrite orb_false_r in Hend. now rewrite Hend.
    - now rewrite IH. }
  split; [unfold main; now rewrite Hloop|].
  rewrite main_snd. intros Hwait. apply loop_ending in Hwait.
  rewrite existsb_app in Hwait. cbn [existsb] in Hwait.
  rewrite Hend in Hwait. cbn [orb] in Hwait.
  now rewrite orb_true_r in Hwait.
Qed.

(** X20: an ASCII line that is [exit] in any mix of cases ends the
    session with the farewell, and is not analysed as a password. *)
Theorem exit_in_any_case (line : str) (rest : list input_event) :
  forallb is_ascii line = true ->
  map ascii_lower line = lit "exit" ->
  main lower_nonascii get (Typed line :: rest)
  = ([Fixed 176; Fixed 177; Fixed 178; Fixed 179; Fixed 180; Fixed 181;
      Fixed 182; Fixed 183; Fixed 184; Fixed 190; Prompt; Goodbye],
     Exited).
Proof.
  intros Hascii Hexit. unfold main. cbn [main_loop]. unfold lower.
  rewrite (lower_from_ascii _ _ _ _ Hascii), Hexit. reflexivity.
Qed.


(** X22: a recommendation to lengthen the password that [main] prints
    names a current length between 1 and 7: the empty line is rejected
    before any check. *)
Theorem advised_length_is_never_zero
    (inputs : list input_event) (i k : Z) :
  In (RecommendationLine i (IncreaseLength k))
     (fst (main lower_nonascii get inputs)) ->
  1 <= k <= 7.
Proof.
  intros H. apply main_in in H; try discriminate.
  destruct H as (line & _ & Hne & Hin).
  apply check_password_recommendations in Hin as (b & n & Hin).
  apply increase_length_in in Hin as [-> Hlt].
  change (length (calculate_password_strength lower_nonascii line))
    with (len line) in *.
  unfold len in *. destruct line; [congruence|]. cbn [List.length] in *. lia.
Qed.

(** X23: every score line that [main] prints shows a score between 0
    and 8 out of 10, with the label and the colour of that score. *)
Theorem printed_scores_are_consistent
    (inputs : list input_event) (c : colour) (s m : Z) (l : strength_label) :
  In (ScoreLine c s m l) (fst (main lower_nonascii get inputs)) ->
  0 <= s <= 8 /\ m = 10
  /\ ((l = Excellent /\ c = Green /\ s = 8)
      \/ (l = Good /\ c = Yellow /\ 5 <= s < 8)
      \/ (l = Medium /\ c = Orange /\ 3 <= s < 5)
      \/ (l = Weak /\ c = Red /\ s < 3)).
Proof.
  intros H. apply main_in in H; try discriminate.
  destruct H as (line & _ & _ & Hin).
  assert (Hs : In (ScoreLine c s m l)
                 (strength_lines (fst (check_password lower_nonascii get line)))).
  { apply filter_In. split; [assumption|reflexivity]. }
  rewrite check_password_strength_lines in Hs.
  destruct Hs as [[= <- <- <- <-]|Hs];
    [|apply in_map_iff in Hs as (f & Hf & _); discriminate Hf].
  unfold calculate_password_strength. cbn [score strength color].
  set (t := common_password_override lower_nonascii line (four_criteria line)).
  assert (Ht : 0 <= fst t <= 8).
  { unfold t, common_password_override.
    pose proof (four_criteria_bounds line).
    destruct (in_common_passwords _); cbn [fst]; lia. }
  destruct (fst t >=? 8) eqn:H8; [|destruct (fst t >=? 5) eqn:H5;
                                   [|destruct (fst t >=? 3) eqn:H3]];
    cbn [fst snd]; (split; [lia|]); (split; [reflexivity|]).
  - left. repeat split. lia.
  - right. left. repeat split; lia.
  - right. right. left. repeat split; lia.
  - right. right. right. repeat split. lia.
Qed.

End Session.

(** * Properties of the encoding, the hash and the fields *)

Lemma lor_byte a b :
  0 <= a < 256 -> 0 <= b < 256 -> 0 <= Z.lor a b < 256.
Proof.
  intros Ha Hb. split; [apply Z.lor_nonneg; lia|].
  destruct (Z.eq_dec (Z.lor a b) 0) as [->|Hne]; [lia|].
  assert (Hpos : 0 < Z.lor a b).
  { pose proof (proj2 (Z.lor_nonneg a b) (conj (proj1 Ha) (proj1 Hb))). lia. }
  change 256 with (2 ^ 8). apply Z.log2_lt_pow2; [assumption|].
  rewrite Z.log2_lor by lia.
  apply Z.max_lub_lt.
  - destruct (Z.eq_dec a 0) as [->|]; [reflexivity|].
    apply Z.log2_lt_pow2; [lia|]. change (2 ^ 8) with 256. lia.
  - destruct (Z.eq_dec b 0) as [->|]; [reflexivity|].
    apply Z.log2_lt_pow2; [lia|]. change (2 ^ 8) with 256. lia.
Qed.

Lemma land_63 x : 0 <= x -> 0 <= Z.land x 63 < 64.
Proof.
  intros Hx. change 63 with (Z.ones 6). rewrite Z.land_ones by lia.
  apply Z.mod_pos_bound. reflexivity.
Qed.

Lemma shiftr_bound c k m :
  0 <= c < m * 2 ^ k -> 0 <= k -> 0 <= Z.shiftr c k < m.
Proof.
  intros Hc Hk. rewrite Z.shiftr_div_pow2 by assumption.
  assert (0 < 2 ^ k) by (apply Z.pow_pos_nonneg; lia).
  split; [apply Z.div_pos; lia|].
  apply Z.div_lt_upper_bound; lia.
Qed.

Lemma continuation_byte x : 0 <= x -> 0 <= Z.lor 128 (Z.land x 63) <= 255.
Proof.
  intros Hx. pose proof (land_63 x Hx).
  pose proof (lor_byte 128 (Z.land x 63)). lia.
Qed.

Lemma utf8_char_bytes c :
  0 <= c <= 0x10FFFF ->
  Forall (fun b => 0 <= b <= 255) (utf8_char c)
  /\ (1 <= List.length (utf8_char c) <= 4)%nat.
Proof.
  intros Hc. unfold utf8_char.
  assert (Hlead : forall k m lead,
            0 <= c < m * 2 ^ k -> 0 <= k -> m <= 256 -> 0 <= lead < 256 ->
            0 <= Z.lor lead (Z.shiftr c k) <= 255).
  { intros k m lead Hck Hk Hm Hl.
    pose proof (shiftr_bound c k m Hck Hk).
    pose proof (lor_byte lead (Z.shiftr c k)). lia. }
  assert (Hcont : forall k, 0 <= k ->
            0 <= Z.lor 128 (Z.land (Z.shiftr c k) 63) <= 255).
  { intros k Hk. apply continuation_byte. apply Z.shiftr_nonneg. lia. }
  assert (Hlast : 0 <= Z.lor 128 (Z.land c 63) <= 255)
    by (apply continuation_byte; lia).
  destruct (c <? 128) eqn:H1.
  { split; [|cbn; lia]. apply Forall_cons; [lia|apply Forall_nil]. }
  destruct (c <? 2048) eqn:H2.
  { split; [|cbn; lia].
    apply Forall_cons;
      [apply (Hlead 6 32 192); [change (2 ^ 6) with 64| | |]; lia|].
    apply Forall_cons; [exact Hlast|apply Forall_nil]. }
  destruct (c <? 65536) eqn:H3.
  { split; [|cbn; lia].
    apply Forall_cons;
      [apply (Hlead 12 16 224); [change (2 ^ 12) with 4096| | |]; lia|].
    apply Forall_cons; [apply Hcont; lia|].
    apply Forall_cons; [exact Hlast|apply Forall_nil]. }
  split; [|cbn; lia].
  apply Forall_cons;
    [apply (Hlead 18 8 240); [change (2 ^ 18) with 262144| | |]; lia|].
  apply Forall_cons; [apply Hcont; lia|].
  apply Forall_cons; [apply Hcont; lia|].
  apply Forall_cons; [exact Hlast|apply Forall_nil].
Qed.

(** X25: the encoding of a password of code points up to U+10FFFF is a
    sequence of bytes, between one and four for each character. *)
Theorem utf8_bytes_in_range (password : str) (encoded : bytes) :
  Forall (fun c => 0 <= c <= 0x10FFFF) password ->
  encode_utf8 password = Return encoded ->
  Forall (fun b => 0 <= b <= 255) encoded
  /\ len password <= len encoded <= 4 * len password.
Proof.
  intros Hrange. revert encoded.
  induction Hrange as [|c s Hc _ IH]; intros encoded; cbn [encode_utf8].
  - intros [= <-]. split; [constructor|cbn; lia].
  - destruct (is_surrogate c); [discriminate|].
    destruct (encode_utf8 s) as [tail|e]; cbn [bind]; [|discriminate].
    intros [= <-]. destruct (IH tail eq_refl) as [Hb Hl].
    destruct (utf8_char_bytes c Hc) as [Hcb Hcl].
    split; [now apply Forall_app|].
    unfold len in *. rewrite length_app. cbn [List.length].
    unfold bytes, str, codepoint in *. lia.
Qed.

(** X24: an ASCII password is hashed as it is: its encoding is the
    sequence of its own code points. *)
Theorem ascii_password_is_its_own_encoding (password : str) :
  forallb is_ascii password = true ->
  encode_utf8 password = Return password.
Proof.
  induction password as [|c s IH]; [reflexivity|].
  cbn [forallb encode_utf8]. rewrite andb_true_iff. intros [Hc Hs].
  unfold is_ascii, in_range in Hc.
  assert (Hsur : is_surrogate c = false) by (unfold is_surrogate, in_range; lia).
  rewrite Hsur, (IH Hs). cbn [bind]. unfold utf8_char.
  assert (Hlt : (c <? 128) = true) by lia. now rewrite Hlt.
Qed.

Lemma split_nonempty sep s : split sep s <> [].
Proof.
  destruct s as [|c s]; cbn [split]; [discriminate|].
  destruct (c =? sep); [discriminate|].
  destruct (split sep s); discriminate.
Qed.

(** X26: joining the fields of [split] with the separator gives the
    string back, and no field contains the separator. *)
Theorem split_then_join (sep : codepoint) (s : str) :
  join [sep] (split sep s) = s
  /\ Forall (Forall (fun c => c <> sep)) (split sep s).
Proof.
  induction s as [|c s [IHj IHf]]; [split; [reflexivity|repeat constructor]|].
  cbn [split]. destruct (Z.eqb_spec c sep) as [->|Hne].
  - split; [|constructor; [constructor|assumption]].
    pose proof (split_nonempty sep s) as Hs.
    destruct (split sep s) as [|f fs] eqn:E; [congruence|].
    change (join [sep] ([] :: f :: fs)) with ([] ++ [sep] ++ join [sep] (f :: fs)).
    now rewrite IHj.
  - pose proof (split_nonempty sep s) as Hs.
    destruct (split sep s) as [|f fs] eqn:E; [congruence|].
    cbn [cons_to_first]. split.
    + rewrite <- IHj. destruct fs; reflexivity.
    + inversion IHf; subst. constructor; [constructor; assumption|assumption].
Qed.

(** X27: the prefix and the suffix of lines 97-98 are the hash cut in
    two, 5 and 35 characters, and the suffix is made of [0-9A-F] like
    the prefix. *)
Theorem hash_is_prefix_and_suffix (encoded : bytes) :
  let hash := sha1_hash encoded in
  prefix_of hash ++ suffix_of hash = hash
  /\ List.length (prefix_of hash) = 5%nat
  /\ List.length (suffix_of hash) = 35%nat
  /\ Forall (fun c => is_upper_hex c = true) (suffix_of hash).
Proof.
  cbv zeta. repeat split.
  - apply firstn_skipn.
  - apply prefix_length.
  - apply suffix_length.
  - pose proof (sha1_hash_upper_hex encoded) as H.
    rewrite Forall_forall in *. intros c Hc. apply H.
    rewrite <- (firstn_skipn 5 (sha1_hash encoded)). apply in_or_app.
    now right.
Qed.

(** X28: a password with a lone surrogate is never sent: the encoding
    raises [UnicodeEncodeError] before the request, whatever the
    transport would do. *)
Theorem surrogate_password_is_never_sent (get : transport) (password : str) :
  Exists (fun c => is_surrogate c = true) password ->
  requested_url password = Raise UnicodeEncodeError
  /\ check_pwned_api get password = Raise UnicodeEncodeError.
Proof.
  intros H.
  assert (He : encode_utf8 password = Raise UnicodeEncodeError).
  { induction password as [|c s IH]; [inversion H|]. cbn [encode_utf8].
    destruct (is_surrogate c) eqn:Hc; [reflexivity|].
    inversion H; subst; [congruence|]. now rewrite IH. }
  unfold requested_url, check_pwned_api. now rewrite He.
Qed.

(** * Instances of the further properties *)

Lemma unreachable_is_reported_as_unavailable_witness :
  snd (check_password lower_nonascii_sample (failing Timeout) (lit "password"))
  = Return tt
  /\ breach_lines
       (fst (check_password lower_nonascii_sample (failing Timeout)
               (lit "password")))
     = [ApiUnavailable].
Proof.
  destruct (unreachable_is_reported_as_unavailable lower_nonascii_sample
              (failing Timeout) (lit "password") (api_url ++ lit "5BAA6")
              Timeout eq_refl eq_refl) as (Hreturn & Hline & _).
  split; [exact Hreturn|exact Hline].
Defined.

Lemma error_status_is_reported_as_not_found_witness :
  snd (check_password lower_nonascii_sample (fixed_response 503 [])
         (lit "password"))
  = Return tt
  /\ breach_lines
       (fst (check_password lower_nonascii_sample (fixed_response 503 [])
               (lit "password")))
     = [NotInBreaches].
Proof.
  apply (error_status_is_reported_as_not_found lower_nonascii_sample
           (fixed_response 503 []) (lit "password") (api_url ++ lit "5BAA6")
           (mkResponse 503 [])).
  - reflexivity.
  - reflexivity.
  - cbn. discriminate.
Defined.

Lemma lookup_exception_cuts_report_witness :
  snd (check_password lower_nonascii_sample
         (fixed_response 200 (lit "bad gateway")) (lit "password"))
  = Raise ValueError
  /\ recommendation_lines
       (fst (check_password lower_nonascii_sample
               (fixed_response 200 (lit "bad gateway")) (lit "password")))
     = [].
Proof.
  destruct (lookup_exception_cuts_report lower_nonascii_sample
              (fixed_response 200 (lit "bad gateway")) (lit "password")
              ValueError eq_refl) as (Hraise & _ & Hnone & _).
  split; [exact Hraise|exact Hnone].
Defined.

Lemma recommendations_are_numbered_witness :
  map fst
    (recommendation_lines
       (fst (check_password lower_nonascii_sample (failing Timeout)
               (lit "aA1!"))))
  = [1; 2; 3].
Proof.
  exact (proj2 (proj2 (recommendations_are_numbered lower_nonascii_sample
                         (failing Timeout) (lit "aA1!") false (-1) eq_refl))).
Defined.

Lemma found_without_warning_witness :
  breach_lines
    (fst (check_password lower_nonascii_sample
            (fixed_response 200 (lit "1E4C9B93F3F0682250B6CF8331B7EE68FD8:0"))
            (lit "password")))
  = [FoundInBreaches 0].
Proof.
  refine (proj1 (found_without_warning lower_nonascii_sample
                   (fixed_response 200
                      (lit "1E4C9B93F3F0682250B6CF8331B7EE68FD8:0"))
                   (lit "password") 0 eq_refl _)).
  lia.
Defined.

Lemma nothing_is_read_after_the_end_witness :
  main lower_nonascii_sample (failing Timeout)
    ([Typed []] ++ Typed (lit "EXIT") :: [Typed (lit "hunter2")])
  = main lower_nonascii_sample (failing Timeout)
      ([Typed []] ++ [Typed (lit "EXIT")]).
Proof.
  exact (proj1 (nothing_is_read_after_the_end lower_nonascii_sample
                  (failing Timeout) [Typed []] (Typed (lit "EXIT"))
                  [Typed (lit "hunter2")] eq_refl)).
Defined.

Lemma exit_in_any_case_witness :
  snd (main lower_nonascii_sample (failing Timeout)
         [Typed (lit "Exit"); Typed (lit "hunter2")])
  = Exited.
Proof.
  rewrite (exit_in_any_case lower_nonascii_sample (failing Timeout)
             (lit "Exit") [Typed (lit "hunter2")] eq_refl eq_refl).
  reflexivity.
Defined.


Lemma advised_length_is_never_zero_witness : 1 <= 4 <= 7.
Proof.
  apply (advised_length_is_never_zero lower_nonascii_sample (failing Timeout)
           [Typed (lit "aA1!")] 1 4).
  vm_compute. repeat (first [left; reflexivity|right]).
Defined.

Lemma printed_scores_are_consistent_witness :
  0 <= 5 <= 8 /\ 10 = 10
  /\ ((Good = Excellent /\ Yellow = Green /\ 5 = 8)
      \/ (Good = Good /\ Yellow = Yellow /\ 5 <= 5 < 8)
      \/ (Good = Medium /\ Yellow = Orange /\ 3 <= 5 < 5)
      \/ (Good = Weak /\ Yellow = Red /\ 5 < 3)).
Proof.
  apply (printed_scores_are_consistent lower_nonascii_sample (failing Timeout)
           [Typed (lit "aA1!")] Yellow 5 10 Good).
  vm_compute. repeat (first [left; reflexivity|right]).
Defined.

Lemma ascii_password_is_its_own_encoding_witness :
  encode_utf8 (lit "password") = Return (lit "password").
Proof.
  exact (ascii_password_is_its_own_encoding (lit "password") eq_refl).
Defined.

Lemma utf8_bytes_in_range_witness :
  Forall (fun b => 0 <= b <= 255) [0xD0; 0xBF; 0xE2; 0x82; 0xAC]
  /\ len [0x43F; 0x20AC] <= len [0xD0; 0xBF; 0xE2; 0x82; 0xAC]
     <= 4 * len [0x43F; 0x20AC].
Proof.
  apply (utf8_bytes_in_range [0x43F; 0x20AC] [0xD0; 0xBF; 0xE2; 0x82; 0xAC]).
  - repeat (apply Forall_cons; [lia|]). apply Forall_nil.
  - reflexivity.
Defined.

Lemma surrogate_password_is_never_sent_witness :
  requested_url [0x61; 0xD800] = Raise UnicodeEncodeError
  /\ check_pwned_api (fixed_response 200 []) [0x61; 0xD800]
     = Raise UnicodeEncodeError.
Proof.
  apply (surrogate_password_is_never_sent (fixed_response 200 [])
           [0x61; 0xD800]).
  apply Exists_cons_tl, Exists_cons_hd. reflexivity.
Defined.
